(** * Reaction synchronisation of the chat extension (modules/reactions.ts)

    A shallow embedding of the [ReactionManager] class: the reaction store,
    the outbound queue, the reconnecting transport, the storage snapshot and
    the message identity derivation, together with the browser primitives
    they rest on ([JSON.parse], [JSON.stringify], [encodeURIComponent],
    [btoa]).

    Conventions.
    - A JavaScript string is a Rocq [string] holding its UTF-8 bytes; only
      well-formed text (no lone surrogate) has such a representation.
    - A JavaScript [Map] with string keys is a [gmap string _]: lookups,
      insertions and deletions are those of the source; the iteration order
      of a [Map] is not represented, members are listed in the order of
      [map_to_list].
    - Every event handler runs to completion (with the promise reactions it
      starts) before the next event is handled: the page is single-threaded
      and no handler awaits anything that only a later event resolves.
    - A message identifier that ends or breaks the string of the selector
      [[data-message-id="..."]] makes [document.querySelector] throw;
      identifiers that complete the text to another well-formed selector
      are not represented. *)

From Stdlib Require Import String Ascii NArith List Lia.
From stdpp Require Import base option list strings pretty gmap.

Local Open Scope string_scope.
Local Open Scope N_scope.

(** ** Character classes *)

Definition is_digit (c : ascii) : bool :=
  let n := N_of_ascii c in (48 <=? n) && (n <=? 57).

Definition is_alpha (c : ascii) : bool :=
  let n := N_of_ascii c in
  ((65 <=? n) && (n <=? 90)) || ((97 <=? n) && (n <=? 122)).

(** ** JSON values, [JSON.parse] and [JSON.stringify] *)

Module JSON.

#[warnings="-register-all"]
Inductive json : Type :=
| JNull
| JBool (b : bool)
| JNum (lit : string)
| JStr (s : string)
| JArr (elems : list json)
| JObj (members : list (string * json)).

Inductive token : Type :=
| TLBrace | TRBrace | TLBracket | TRBracket | TColon | TComma
| TString (s : string)
| TScalar (v : json).

Definition dquote : ascii := "034".
Definition backslash : ascii := "092".

Definition is_ws (c : ascii) : bool :=
  let n := N_of_ascii c in (n =? 32) || (n =? 9) || (n =? 10) || (n =? 13).

(** Characters of the literals [true], [false], [null] and of numbers. *)
Definition is_word_char (c : ascii) : bool :=
  let n := N_of_ascii c in
  is_digit c || is_alpha c || (n =? 43) || (n =? 45) || (n =? 46).

Definition punct (c : ascii) : option token :=
  match N_of_ascii c with
  | 123 => Some TLBrace
  | 125 => Some TRBrace
  | 91 => Some TLBracket
  | 93 => Some TRBracket
  | 58 => Some TColon
  | 44 => Some TComma
  | _ => None
  end.

Definition hex_val (c : ascii) : option N :=
  let n := N_of_ascii c in
  if (48 <=? n) && (n <=? 57) then Some (n - 48)
  else if (65 <=? n) && (n <=? 70) then Some (n - 55)
  else if (97 <=? n) && (n <=? 102) then Some (n - 87)
  else None.

Definition byte (n : N) : string := String (ascii_of_N n) EmptyString.

(** UTF-8 bytes of a code point; a surrogate left alone by its escape is
    written with the same three-byte pattern. *)
Definition utf8 (cp : N) : string :=
  if cp <? 0x80 then byte cp
  else if cp <? 0x800 then
    byte (N.lor 0xC0 (N.shiftr cp 6)) +:+ byte (N.lor 0x80 (N.land cp 0x3F))
  else if cp <? 0x10000 then
    byte (N.lor 0xE0 (N.shiftr cp 12))
    +:+ byte (N.lor 0x80 (N.land (N.shiftr cp 6) 0x3F))
    +:+ byte (N.lor 0x80 (N.land cp 0x3F))
  else
    byte (N.lor 0xF0 (N.shiftr cp 18))
    +:+ byte (N.lor 0x80 (N.land (N.shiftr cp 12) 0x3F))
    +:+ byte (N.lor 0x80 (N.land (N.shiftr cp 6) 0x3F))
    +:+ byte (N.lor 0x80 (N.land cp 0x3F)).

Definition is_high_surrogate (cu : N) : bool := (0xD800 <=? cu) && (cu <=? 0xDBFF).
Definition is_low_surrogate (cu : N) : bool := (0xDC00 <=? cu) && (cu <=? 0xDFFF).
Definition surrogate_pair (hi lo : N) : N :=
  0x10000 + N.shiftl (hi - 0xD800) 10 + (lo - 0xDC00).

Definition flush (hi : option N) : string :=
  match hi with Some h => utf8 h | None => "" end.

(** *** Numbers: an optional minus sign, an integer part without leading
    zero, an optional fraction and an optional exponent *)

Fixpoint skip_digits (s : string) : string :=
  match s with
  | String c r => if is_digit c then skip_digits r else s
  | EmptyString => s
  end.

Definition digits1 (s : string) : option string :=
  match s with
  | String c r => if is_digit c then Some (skip_digits r) else None
  | EmptyString => None
  end.

Definition int_part (s : string) : option string :=
  match s with
  | String c r =>
      if N_of_ascii c =? 48 then Some r
      else if is_digit c then Some (skip_digits r) else None
  | EmptyString => None
  end.

Definition frac_part (s : string) : option string :=
  match s with
  | String c r => if N_of_ascii c =? 46 then digits1 r else Some s
  | EmptyString => Some s
  end.

Definition exp_part (s : string) : option string :=
  match s with
  | String c r =>
      if (N_of_ascii c =? 101) || (N_of_ascii c =? 69) then
        match r with
        | String sg r' =>
            if (N_of_ascii sg =? 43) || (N_of_ascii sg =? 45)
            then digits1 r' else digits1 r
        | EmptyString => None
        end
      else Some s
  | EmptyString => Some s
  end.

Definition is_number (s : string) : bool :=
  let body := match s with
              | String c r => if N_of_ascii c =? 45 then r else s
              | EmptyString => s
              end in
  match int_part body with
  | Some after_int =>
      match frac_part after_int with
      | Some after_frac =>
          match exp_part after_frac with
          | Some EmptyString => true
          | _ => false
          end
      | None => false
      end
  | None => false
  end.

Definition classify (w : string) : option json :=
  if String.eqb w "true" then Some (JBool true)
  else if String.eqb w "false" then Some (JBool false)
  else if String.eqb w "null" then Some JNull
  else if is_number w then Some (JNum w)
  else None.

(** *** Lexer

    One character at a time.  The result pairs the rest of the token that is
    being read (the tail of a string or of a word) with the tokens after it. *)

Inductive mode : Type :=
| Idle
| InWord
| InString (hi : option N)
| InEscape (hi : option N)
| InUnicode (hi : option N) (todo : nat) (acc : N).

Definition lexed : Type := option (string * list token).

Definition keep (pre : string) (r : lexed) : lexed :=
  '(s, ts) ← r; Some (pre +:+ s, ts).

Definition emit (t : token) (r : lexed) : lexed :=
  '(_, ts) ← r; Some (EmptyString, t :: ts).

Definition idle (c : ascii) (k : mode → lexed) : lexed :=
  if is_ws c then k Idle
  else if Ascii.eqb c dquote then
    '(s, ts) ← k (InString None); Some (EmptyString, TString s :: ts)
  else match punct c with
       | Some t => emit t (k Idle)
       | None =>
           if is_word_char c then
             '(w, ts) ← k InWord;
             v ← classify (String c w);
             Some (EmptyString, TScalar v :: ts)
           else None
       end.

Definition simple_escape (c : ascii) : option N :=
  match N_of_ascii c with
  | 34 => Some 34
  | 92 => Some 92
  | 47 => Some 47
  | 98 => Some 8
  | 102 => Some 12
  | 110 => Some 10
  | 114 => Some 13
  | 116 => Some 9
  | _ => None
  end.

Definition unicode_done (hi : option N) (cu : N) (k : mode → lexed) : lexed :=
  match hi with
  | Some h =>
      if is_low_surrogate cu then keep (utf8 (surrogate_pair h cu)) (k (InString None))
      else if is_high_surrogate cu then keep (utf8 h) (k (InString (Some cu)))
      else keep (utf8 h +:+ utf8 cu) (k (InString None))
  | None =>
      if is_high_surrogate cu then k (InString (Some cu))
      else keep (utf8 cu) (k (InString None))
  end.

Fixpoint lex (m : mode) (s : string) {struct s} : lexed :=
  match s with
  | EmptyString =>
      match m with
      | Idle | InWord => Some (EmptyString, [])
      | _ => None
      end
  | String c r =>
      match m with
      | Idle => idle c (λ m', lex m' r)
      | InWord =>
          if is_word_char c then keep (String c EmptyString) (lex InWord r)
          else idle c (λ m', lex m' r)
      | InString hi =>
          if Ascii.eqb c dquote then keep (flush hi) (lex Idle r)
          else if Ascii.eqb c backslash then lex (InEscape hi) r
          else if N_of_ascii c <? 32 then None
          else keep (flush hi +:+ String c EmptyString) (lex (InString None) r)
      | InEscape hi =>
          if N_of_ascii c =? 117 then lex (InUnicode hi 4 0) r
          else match simple_escape c with
               | Some n => keep (flush hi +:+ byte n) (lex (InString None) r)
               | None => None
               end
      | InUnicode hi todo acc =>
          match hex_val c with
          | Some d =>
              let acc' := acc * 16 + d in
              match todo with
              | 1%nat => unicode_done hi acc' (λ m', lex m' r)
              | _ => lex (InUnicode hi (pred todo) acc') r
              end
          | None => None
          end
      end
  end.

(** *** Parser: a pushdown automaton over the tokens *)

Inductive frame : Type :=
| FArr (done : list json)
| FObj (done : list (string * json)) (key : string).

Inductive pstate : Type :=
| SVal (stk : list frame)
| SArr0 (stk : list frame)
| SArrN (done : list json) (stk : list frame)
| SObj0 (stk : list frame)
| SKey (done : list (string * json)) (stk : list frame)
| SColon (done : list (string * json)) (key : string) (stk : list frame)
| SObjN (done : list (string * json)) (stk : list frame)
| SDone (v : json).

Definition feed (v : json) (stk : list frame) : pstate :=
  match stk with
  | [] => SDone v
  | FArr done :: stk' => SArrN (v :: done) stk'
  | FObj done key :: stk' => SObjN ((key, v) :: done) stk'
  end.

Definition value_step (stk : list frame) (t : token) : option pstate :=
  match t with
  | TString s => Some (feed (JStr s) stk)
  | TScalar v => Some (feed v stk)
  | TLBracket => Some (SArr0 stk)
  | TLBrace => Some (SObj0 stk)
  | _ => None
  end.

Definition step (st : pstate) (t : token) : option pstate :=
  match st with
  | SVal stk => value_step stk t
  | SArr0 stk =>
      match t with
      | TRBracket => Some (feed (JArr []) stk)
      | _ => value_step (FArr [] :: stk) t
      end
  | SArrN done stk =>
      match t with
      | TComma => Some (SVal (FArr done :: stk))
      | TRBracket => Some (feed (JArr (rev done)) stk)
      | _ => None
      end
  | SObj0 stk =>
      match t with
      | TRBrace => Some (feed (JObj []) stk)
      | TString k => Some (SColon [] k stk)
      | _ => None
      end
  | SKey done stk =>
      match t with
      | TString k => Some (SColon done k stk)
      | _ => None
      end
  | SColon done k stk =>
      match t with
      | TColon => Some (SVal (FObj done k :: stk))
      | _ => None
      end
  | SObjN done stk =>
      match t with
      | TComma => Some (SKey done stk)
      | TRBrace => Some (feed (JObj (rev done)) stk)
      | _ => None
      end
  | SDone _ => None
  end.

Fixpoint run (st : pstate) (ts : list token) : option json :=
  match ts with
  | [] => match st with SDone v => Some v | _ => None end
  | t :: ts' => st' ← step st t; run st' ts'
  end.

(** [JSON.parse text]: [None] stands for the [SyntaxError] it throws. *)
Definition parse (text : string) : option json :=
  '(_, ts) ← lex Idle text; run (SVal []) ts.

(** *** [JSON.stringify] *)

Definition hex_digit (n : N) : ascii :=
  if n <? 10 then ascii_of_N (48 + n) else ascii_of_N (87 + n).

Definition escape_char (c : ascii) (k : string) : string :=
  match N_of_ascii c with
  | 8 => String backslash (String "b" k)
  | 9 => String backslash (String "t" k)
  | 10 => String backslash (String "n" k)
  | 12 => String backslash (String "f" k)
  | 13 => String backslash (String "r" k)
  | 34 => String backslash (String dquote k)
  | 92 => String backslash (String backslash k)
  | n =>
      if n <? 32 then
        String backslash (String "u" (String "0" (String "0"
          (String (hex_digit (N.shiftr n 4)) (String (hex_digit (N.land n 15)) k)))))
      else String c k
  end.

Fixpoint escape_chars (s : string) (k : string) : string :=
  match s with
  | EmptyString => k
  | String c r => escape_char c (escape_chars r k)
  end.

Definition quote (s : string) (k : string) : string :=
  String dquote (escape_chars s (String dquote k)).

(** [print v k] is the text of [v] followed by [k]. A number is written with
    the literal it was read from. *)
Fixpoint print (v : json) (k : string) : string :=
  match v with
  | JNull => "null" +:+ k
  | JBool true => "true" +:+ k
  | JBool false => "false" +:+ k
  | JNum lit => lit +:+ k
  | JStr s => quote s k
  | JArr [] => "[]" +:+ k
  | JArr (x :: xs) =>
      String "[" (print x
        ((fix rest (l : list json) : string :=
            match l with
            | [] => String "]" k
            | y :: l' => String "," (print y (rest l'))
            end) xs))
  | JObj [] => "{}" +:+ k
  | JObj ((key, x) :: ms) =>
      String "{" (quote key (String ":" (print x
        ((fix rest (l : list (string * json)) : string :=
            match l with
            | [] => String "}" k
            | (key', y) :: l' => String "," (quote key' (String ":" (print y (rest l'))))
            end) ms))))
  end.

Definition stringify (v : json) : string := print v EmptyString.

(** Property access [v.key] on a parsed value that is not [null]: [None] is
    [undefined].  The last of several equal keys wins, as in [JSON.parse]. *)
Fixpoint member (key : string) (ms : list (string * json)) : option json :=
  match ms with
  | [] => None
  | (k, v) :: ms' =>
      match member key ms' with
      | Some v' => Some v'
      | None => if String.eqb k key then Some v else None
      end
  end.

(** *** Reading back what [stringify] wrote *)

Fixpoint print_elems (l : list json) (k : string) : string :=
  match l with
  | [] => String "]" k
  | y :: l' => String "," (print y (print_elems l' k))
  end.

Fixpoint print_members (l : list (string * json)) (k : string) : string :=
  match l with
  | [] => String "}" k
  | (key, y) :: l' => String "," (quote key (String ":" (print y (print_members l' k))))
  end.

(** The tokens of [print v k], followed by [ts]. *)
Fixpoint tokens (v : json) (ts : list token) : list token :=
  match v with
  | JStr s => TString s :: ts
  | JArr [] => TLBracket :: TRBracket :: ts
  | JArr (x :: xs) =>
      TLBracket :: tokens x
        ((fix rest (l : list json) : list token :=
            match l with
            | [] => TRBracket :: ts
            | y :: l' => TComma :: tokens y (rest l')
            end) xs)
  | JObj [] => TLBrace :: TRBrace :: ts
  | JObj ((key, x) :: ms) =>
      TLBrace :: TString key :: TColon :: tokens x
        ((fix rest (l : list (string * json)) : list token :=
            match l with
            | [] => TRBrace :: ts
            | (key', y) :: l' => TComma :: TString key' :: TColon :: tokens y (rest l')
            end) ms)
  | scalar => TScalar scalar :: ts
  end.

Fixpoint tokens_elems (l : list json) (ts : list token) : list token :=
  match l with
  | [] => TRBracket :: ts
  | y :: l' => TComma :: tokens y (tokens_elems l' ts)
  end.

Fixpoint tokens_members (l : list (string * json)) (ts : list token) : list token :=
  match l with
  | [] => TRBrace :: ts
  | (key, y) :: l' => TComma :: TString key :: TColon :: tokens y (tokens_members l' ts)
  end.

(** Values without numbers: what the manager writes. *)
Fixpoint no_num (v : json) : bool :=
  match v with
  | JNum _ => false
  | JArr l => forallb no_num l
  | JObj ms => forallb (λ kv, no_num kv.2) ms
  | _ => true
  end.

(** The text after a word must not go on with a word character. *)
Definition delimited (k : string) : Prop :=
  match k with
  | EmptyString => True
  | String c _ => is_word_char c = false
  end.

Definition emits (f : list token → list token) (r : lexed) : lexed :=
  '(_, ts) ← r; Some (EmptyString, f ts).

End JSON.

Import JSON.

(** JSON text is written below with ['] for the double quote. *)
Definition js_char (c : ascii) : ascii :=
  if Ascii.eqb c "'" then dquote else c.

Fixpoint js (s : string) : string :=
  match s with
  | EmptyString => EmptyString
  | String c r => String (js_char c) (js r)
  end.

(** ** [encodeURIComponent], [btoa] and the message identity *)

Definition is_alnum (c : ascii) : bool := is_digit c || is_alpha c.

(** The characters [encodeURIComponent] leaves alone:
    letters, digits and [- _ . ! ~ * ' ( )]. *)
Definition uri_unreserved (c : ascii) : bool :=
  is_alnum c ||
  match N_of_ascii c with
  | 45 | 95 | 46 | 33 | 126 | 42 | 39 | 40 | 41 => true
  | _ => false
  end.

Definition hex_upper (n : N) : ascii :=
  if n <? 10 then ascii_of_N (48 + n) else ascii_of_N (55 + n).

(** Every other byte of the UTF-8 form is written [%XX]. *)
Fixpoint encodeURIComponent (s : string) : string :=
  match s with
  | EmptyString => EmptyString
  | String c r =>
      if uri_unreserved c then String c (encodeURIComponent r)
      else
        let n := N_of_ascii c in
        String "%" (String (hex_upper (N.shiftr n 4))
          (String (hex_upper (N.land n 15)) (encodeURIComponent r)))
  end.

Definition b64_char (n : N) : ascii :=
  if n <? 26 then ascii_of_N (65 + n)
  else if n <? 52 then ascii_of_N (71 + n)
  else if n <? 62 then ascii_of_N (n - 4)
  else if n =? 62 then "+" else "/".

(** [btoa] on a string of characters below U+0100, one byte each; it is
    applied to the ASCII output of [encodeURIComponent] only. *)
Fixpoint btoa (s : string) : string :=
  match s with
  | EmptyString => EmptyString
  | String a EmptyString =>
      let x := N_of_ascii a in
      String (b64_char (N.shiftr x 2))
        (String (b64_char (N.shiftl (N.land x 3) 4)) "==")
  | String a (String b EmptyString) =>
      let x := N_of_ascii a in
      let y := N_of_ascii b in
      String (b64_char (N.shiftr x 2))
        (String (b64_char (N.lor (N.shiftl (N.land x 3) 4) (N.shiftr y 4)))
          (String (b64_char (N.shiftl (N.land y 15) 2)) "="))
  | String a (String b (String c r)) =>
      let x := N_of_ascii a in
      let y := N_of_ascii b in
      let z := N_of_ascii c in
      String (b64_char (N.shiftr x 2))
        (String (b64_char (N.lor (N.shiftl (N.land x 3) 4) (N.shiftr y 4)))
          (String (b64_char (N.lor (N.shiftl (N.land y 15) 2) (N.shiftr z 6)))
            (String (b64_char (N.land z 63)) (btoa r))))
  end.

(** [.replace(/[^a-zA-Z0-9]/g, '')] *)
Fixpoint strip_non_alnum (s : string) : string :=
  match s with
  | EmptyString => EmptyString
  | String c r => if is_alnum c then String c (strip_non_alnum r) else strip_non_alnum r
  end.

(** ** The page: message containers and what the manager hangs on them *)

Record Badge : Type := {
  badge_messageId : string;   (* the click handler toggles (messageId, emoji) *)
  badge_emoji : string;
  badge_count : string;
  badge_highlighted : bool;
  badge_title : string;
}.

Inductive Node : Type :=
| HostElement (data_test : string) (textContent : string)
| ReactionButton (messageId : string)
| ReactionsWrapper (badges : list Badge)     (* div.reactions-wrapper > div.reactions-container *)
| ReactionsContainer (badges : list Badge)   (* div.reactions-container *)
| ReactionBadge (b : Badge).

Record MessageContainer : Type := {
  dataset_messageId : option string;
  dataset_hasReactions : option string;
  childNodes : list Node;
}.

(** [container.querySelector('[data-test="..."]')?.textContent] *)
Fixpoint querySelector_textContent (data_test : string) (nodes : list Node) : option string :=
  match nodes with
  | [] => None
  | HostElement t text :: rest =>
      if String.eqb t data_test then Some text
      else querySelector_textContent data_test rest
  | _ :: rest => querySelector_textContent data_test rest
  end.

(** [x || ''] and the truth value of [string | undefined] *)
Definition truthy (o : option string) : option string :=
  match o with
  | Some EmptyString | None => None
  | Some s => Some s
  end.

Definition or_empty (o : option string) : string := default EmptyString (truthy o).

Definition message_id_of (user text timestamp : string) : string :=
  let uniqueString := user +:+ "-" +:+ text +:+ "-" +:+ timestamp in
  "msg-" +:+ String.substring 0 32 (strip_non_alnum (btoa (encodeURIComponent uniqueString))).

Definition generateMessageId (container : MessageContainer) : string :=
  let text := or_empty (querySelector_textContent "chatUserMessageText" (childNodes container)) in
  let user := or_empty (querySelector_textContent "chatUserName" (childNodes container)) in
  let timestamp := or_empty (querySelector_textContent "chatMessageTimestamp" (childNodes container)) in
  message_id_of user text timestamp.

(** ** The manager and the browser around it *)

(** Modelled from the spec: the type [MessageReactions], declared in
    types/reactions, which is not among the sources.  The reaction state is
    "the full mapping from every known message identity to its Reaction Set",
    a reaction set being "a mapping from emoji to an ordered collection of
    user identifiers"; the manager builds it as a [Map] of
    [Map<string, string[]>]. *)
Abbreviation MessageReactions := (gmap string (gmap string (list string))).

Inductive Action : Type := add | remove.

(** Modelled from the spec: the type [WebSocketMessage], declared in
    types/reactions, which is not among the sources.  Two envelopes exist,
    [{type: "reaction_update", data: {messageId, emoji, userId, action}}] and
    [{type: "update_reactions", sessionToken, data: {reactions}}]; the
    manager builds both with exactly these members. *)
Inductive WebSocketMessage : Type :=
| reaction_update (messageId emoji userId : string) (action : Action)
| update_reactions (sessionToken : string) (reactions : string).

Inductive ReadyState : Type := CONNECTING | OPEN | CLOSING | CLOSED.

Record World : Type := mkWorld {
  (* fields of ReactionManager *)
  messageReactions : MessageReactions;
  messageQueue : list WebSocketMessage;
  ws : option ReadyState;
  reconnectAttempts : nat;
  (* the browser *)
  localStorage : gmap string string;
  document : list MessageContainer;
  sessionTokenParam : option string;   (* the sessionToken parameter of the URL *)
  actualUserName : option string;      (* what getActualUserName() of users/user.module returns *)
  (* what the manager did to the outside *)
  console : list string;               (* console.log and console.error lines *)
  sent : list string;                  (* frames accepted by ws.send, oldest first *)
  reconnectTimers : nat;               (* reconnect timers set and not fired yet *)
  sockets : nat;                       (* WebSocket objects constructed so far *)
  (* whether the coming calls of ws.send throw; none left: they do not *)
  sendFaults : list bool;
}.

Definition set_messageReactions (v : MessageReactions) (w : World) : World :=
  mkWorld v (messageQueue w) (ws w) (reconnectAttempts w) (localStorage w) (document w)
    (sessionTokenParam w) (actualUserName w) (console w) (sent w) (reconnectTimers w)
    (sockets w) (sendFaults w).

Definition set_messageQueue (v : list WebSocketMessage) (w : World) : World :=
  mkWorld (messageReactions w) v (ws w) (reconnectAttempts w) (localStorage w) (document w)
    (sessionTokenParam w) (actualUserName w) (console w) (sent w) (reconnectTimers w)
    (sockets w) (sendFaults w).

Definition set_ws (v : option ReadyState) (w : World) : World :=
  mkWorld (messageReactions w) (messageQueue w) v (reconnectAttempts w) (localStorage w)
    (document w) (sessionTokenParam w) (actualUserName w) (console w) (sent w)
    (reconnectTimers w) (sockets w) (sendFaults w).

Definition set_reconnectAttempts (v : nat) (w : World) : World :=
  mkWorld (messageReactions w) (messageQueue w) (ws w) v (localStorage w) (document w)
    (sessionTokenParam w) (actualUserName w) (console w) (sent w) (reconnectTimers w)
    (sockets w) (sendFaults w).

Definition set_localStorage (v : gmap string string) (w : World) : World :=
  mkWorld (messageReactions w) (messageQueue w) (ws w) (reconnectAttempts w) v (document w)
    (sessionTokenParam w) (actualUserName w) (console w) (sent w) (reconnectTimers w)
    (sockets w) (sendFaults w).

Definition set_document (v : list MessageContainer) (w : World) : World :=
  mkWorld (messageReactions w) (messageQueue w) (ws w) (reconnectAttempts w) (localStorage w) v
    (sessionTokenParam w) (actualUserName w) (console w) (sent w) (reconnectTimers w)
    (sockets w) (sendFaults w).

Definition set_console (v : list string) (w : World) : World :=
  mkWorld (messageReactions w) (messageQueue w) (ws w) (reconnectAttempts w) (localStorage w)
    (document w) (sessionTokenParam w) (actualUserName w) v (sent w) (reconnectTimers w)
    (sockets w) (sendFaults w).

Definition set_sent (v : list string) (w : World) : World :=
  mkWorld (messageReactions w) (messageQueue w) (ws w) (reconnectAttempts w) (localStorage w)
    (document w) (sessionTokenParam w) (actualUserName w) (console w) v (reconnectTimers w)
    (sockets w) (sendFaults w).

Definition set_reconnectTimers (v : nat) (w : World) : World :=
  mkWorld (messageReactions w) (messageQueue w) (ws w) (reconnectAttempts w) (localStorage w)
    (document w) (sessionTokenParam w) (actualUserName w) (console w) (sent w) v
    (sockets w) (sendFaults w).

Definition set_sockets (v : nat) (w : World) : World :=
  mkWorld (messageReactions w) (messageQueue w) (ws w) (reconnectAttempts w) (localStorage w)
    (document w) (sessionTokenParam w) (actualUserName w) (console w) (sent w)
    (reconnectTimers w) v (sendFaults w).

Definition set_sendFaults (v : list bool) (w : World) : World :=
  mkWorld (messageReactions w) (messageQueue w) (ws w) (reconnectAttempts w) (localStorage w)
    (document w) (sessionTokenParam w) (actualUserName w) (console w) (sent w)
    (reconnectTimers w) (sockets w) v.

Definition console_line (line : string) (w : World) : World :=
  set_console (console w ++ [line]) w.

(** [config] *)
Definition maxReconnectAttempts : nat := 5.
Definition reconnectDelay : nat := 3000.

Definition isConnectionReady (w : World) : bool :=
  match ws w with Some OPEN => true | _ => false end.

Definition getSessionToken (w : World) : string :=
  default "default-session" (truthy (sessionTokenParam w)).

Definition storageKey (sessionToken : string) : string :=
  "wwsnb_reactions_" +:+ sessionToken.

(** *** Wire format *)

Definition action_name (a : Action) : string :=
  match a with add => "add" | remove => "remove" end.

Definition message_json (m : WebSocketMessage) : json :=
  match m with
  | reaction_update messageId emoji userId action =>
      JObj [("type", JStr "reaction_update");
            ("data", JObj [("messageId", JStr messageId); ("emoji", JStr emoji);
                           ("userId", JStr userId); ("action", JStr (action_name action))])]
  | update_reactions sessionToken reactions =>
      JObj [("type", JStr "update_reactions");
            ("sessionToken", JStr sessionToken);
            ("data", JObj [("reactions", JStr reactions)])]
  end.

(** [ws.send(frame)]: [false] when it throws. *)
Definition ws_send (frame : string) (w : World) : bool * World :=
  match sendFaults w with
  | true :: faults => (false, set_sendFaults faults w)
  | false :: faults => (true, set_sent (sent w ++ [frame]) (set_sendFaults faults w))
  | [] => (true, set_sent (sent w ++ [frame]) w)
  end.

(** [sendMessage]: [true] when the promise resolves, [false] when it rejects.
    The timer it sets is cleared before it can fire. *)
Definition sendMessage (message : WebSocketMessage) (w : World) : bool * World :=
  if isConnectionReady w then ws_send (stringify (message_json message)) w
  else (false, w).

(** [processQueue]: the recursion of the source follows the queue, which
    [shift] shortens by one before each further call. *)
Fixpoint processQueue_from (queue : list WebSocketMessage) (w : World) : World :=
  if isConnectionReady w then
    match queue with
    | [] => w
    | message :: rest =>
        match sendMessage message (set_messageQueue rest w) with
        | (true, w') => processQueue_from rest w'
        | (false, w') =>
            console_line "[WWSNB] Failed to send message:"
              (set_messageQueue (message :: messageQueue w') w')
        end
    end
  else w.

Definition processQueue (w : World) : World := processQueue_from (messageQueue w) w.

Definition queueMessage (message : WebSocketMessage) (w : World) : World :=
  processQueue (set_messageQueue (messageQueue w ++ [message]) w).

(** *** The reaction store *)

Definition includes (userId : string) (users : list string) : bool :=
  bool_decide (userId ∈ users).

Definition getReactionAction (messageId emoji userId : string) (w : World) : Action :=
  let users := default [] (messageReactions w !! messageId ≫= (.!! emoji)) in
  if includes userId users then remove else add.

Definition toggle (emoji userId : string) (reactions : gmap string (list string))
  : gmap string (list string) :=
  let users := default [] (reactions !! emoji) in
  if includes userId users then
    let updatedUsers := filter (λ user, user ≠ userId) users in
    match updatedUsers with
    | [] => delete emoji reactions
    | _ => <[emoji := updatedUsers]> reactions
    end
  else <[emoji := (users ++ [userId])%list]> reactions.

Definition updateLocalReaction_state (messageId emoji userId : string)
    (state : MessageReactions)
  : MessageReactions :=
  let reactions := default ∅ (state !! messageId) in
  <[messageId := toggle emoji userId reactions]> state.

Definition updateLocalReaction (messageId emoji userId : string) (w : World) : World :=
  set_messageReactions (updateLocalReaction_state messageId emoji userId (messageReactions w)) w.

(** *** Rendering *)

Definition createReactionBadge (messageId currentUser : string)
    (entry : string * list string) : Badge :=
  let '(emoji, users) := entry in
  {| badge_messageId := messageId;
     badge_emoji := emoji;
     badge_count := pretty (length users);
     badge_highlighted := includes currentUser users;
     badge_title := String.concat ", " users |}.

(** [updateReactionDisplay messageId container]: the new children of the
    container, which is emptied first. *)
Definition updateReactionDisplay (messageId : string) (w : World) : list Badge * World :=
  let reactions := default ∅ (messageReactions w !! messageId) in
  match truthy (actualUserName w) with
  | None => ([], console_line "[WWSNB] User name is not defined" w)
  | Some currentUserName =>
      (createReactionBadge messageId currentUserName <$> map_to_list reactions, w)
  end.

(** Runs [f] on every message container of the page, in document order. *)
Fixpoint forEach_from (f : MessageContainer → World → MessageContainer * World)
    (containers : list MessageContainer) (w : World) : list MessageContainer * World :=
  match containers with
  | [] => ([], w)
  | c :: rest =>
      let '(c', w1) := f c w in
      let '(rest', w2) := forEach_from f rest w1 in
      (c' :: rest', w2)
  end.

Definition forEach_container (f : MessageContainer → World → MessageContainer * World)
    (w : World) : World :=
  let '(containers, w') := forEach_from f (document w) w in
  set_document containers w'.

(** The body of the loop of [updateAllReactionDisplays]; the display is
    rebuilt in the message container itself. *)
Definition displayReactions (c : MessageContainer) (w : World) : MessageContainer * World :=
  let messageId := default (generateMessageId c) (truthy (dataset_messageId c)) in
  if bool_decide (is_Some (messageReactions w !! messageId)) then
    let '(badges, w') := updateReactionDisplay messageId w in
    ({| dataset_messageId := Some messageId;
        dataset_hasReactions := Some "true";
        childNodes := ReactionBadge <$> badges |}, w')
  else
    ({| dataset_messageId := Some messageId;
        dataset_hasReactions := dataset_hasReactions c;
        childNodes := childNodes c |}, w).

Definition updateAllReactionDisplays (w : World) : World :=
  forEach_container displayReactions w.

(** Fills the first [.reactions-container] among the nodes, if there is one. *)
Fixpoint fill_reactions_container (badges : list Badge) (nodes : list Node)
  : option (list Node) :=
  match nodes with
  | [] => None
  | ReactionsWrapper _ :: rest => Some (ReactionsWrapper badges :: rest)
  | ReactionsContainer _ :: rest => Some (ReactionsContainer badges :: rest)
  | n :: rest => cons n <$> fill_reactions_container badges rest
  end.

(** [ensureReactionsContainer] followed by [updateReactionDisplay] on it. *)
Definition render_in (badges : list Badge) (c : MessageContainer) : MessageContainer :=
  {| dataset_messageId := dataset_messageId c;
     dataset_hasReactions := dataset_hasReactions c;
     childNodes := default (childNodes c ++ [ReactionsContainer badges])%list
                     (fill_reactions_container badges (childNodes c)) |}.

(** The characters that end or break the string of a CSS selector: NUL,
    line feed, form feed, carriage return, double quote and backslash. *)
Definition breaks_selector (c : ascii) : bool :=
  match N_of_ascii c with
  | 0 | 10 | 12 | 13 | 34 | 92 => true
  | _ => false
  end.

Fixpoint selector_plain (messageId : string) : bool :=
  match messageId with
  | EmptyString => true
  | String c r => negb (breaks_selector c) && selector_plain r
  end.

(** [updateMessageReactions]: [false] when it is left by the [SyntaxError]
    of [document.querySelector].  The selector is the text
    [[data-message-id="<messageId>"]].  With an identifier that holds none
    of the characters above the text is a valid selector, matched by the
    elements whose attribute is the identifier.  Any other identifier ends or
    breaks the string of the selector and [querySelector] throws, unless the
    identifier itself completes the text to another well-formed selector;
    such identifiers are outside this model. *)
Definition updateMessageReactions (messageId : string) (w : World) : bool * World :=
  if selector_plain messageId then
    match list_find (λ c, dataset_messageId c = Some messageId) (document w) with
    | Some (i, _) =>
        let '(badges, w') := updateReactionDisplay messageId w in
        (true, set_document (alter (render_in badges) i (document w')) w')
    | None => (true, w)
    end
  else (false, w).

Definition addReactionButton (c : MessageContainer) (w : World) : MessageContainer * World :=
  if bool_decide (dataset_hasReactions c = Some "true") then (c, w)
  else
    let messageId := generateMessageId c in
    let w1 :=
      match messageReactions w !! messageId with
      | Some _ => w
      | None => set_messageReactions (<[messageId := ∅]> (messageReactions w)) w
      end in
    let '(badges, w2) := updateReactionDisplay messageId w1 in
    ({| dataset_messageId := Some messageId;
        dataset_hasReactions := Some "true";
        childNodes := (childNodes c ++ [ReactionButton messageId; ReactionsWrapper badges])%list |},
     w2).

Definition checkAndAddReactionButtons (w : World) : World :=
  forEach_container
    (λ c w, match truthy (dataset_hasReactions c) with
            | None => addReactionButton c w
            | Some _ => (c, w)
            end) w.

(** *** Storage snapshot and full-state broadcast *)

Definition reactions_object (reactions : gmap string (list string)) : json :=
  JObj ((λ entry : string * list string, (entry.1, JArr (JStr <$> entry.2)))
          <$> map_to_list reactions).

(** [Object.fromEntries] of the entries, each inner map as an object *)
Definition state_object (state : MessageReactions) : json :=
  JObj ((λ entry : string * gmap string (list string), (entry.1, reactions_object entry.2))
          <$> map_to_list state).

Definition saveToLocalStorage (sessionToken : string) (w : World) : World :=
  set_localStorage
    (<[storageKey sessionToken := stringify (state_object (messageReactions w))]>
       (localStorage w)) w.

(** [Array.from(this.messageReactions.entries())] under [JSON.stringify]: a
    [Map] has no enumerable property of its own and is written [{}]. *)
Definition entries_array (state : MessageReactions) : json :=
  JArr ((λ entry : string * gmap string (list string), JArr [JStr entry.1; JObj []])
          <$> map_to_list state).

(** [sendInitialState]: [false] when [ws.send] throws. *)
Definition sendInitialState (sessionToken : string) (w : World) : bool * World :=
  if isConnectionReady w then
    ws_send (stringify (message_json
               (update_reactions sessionToken
                  (stringify (entries_array (messageReactions w)))))) w
  else (true, w).

(** *** Data from outside

    What [JSON.parse] returns is cast to the declared types ([ReactionData]
    and [ParsedMessageReaction[]] for a push, the nested object for a
    snapshot) without a check.  These types are declared in types/reactions,
    which is not among the sources; the members read below are the ones the
    manager reads ([type], [reactions], [messageId], [emoji], [users]).
    Reading a parsed value either gives a value of the declared type, or
    throws on the way, or goes on with a value the declared type does not
    have; the last case is outside this model. *)

Inductive decoded (A : Type) : Type :=
| Typed (a : A)
| Throws
| Untyped.
Arguments Typed {A} a.
Arguments Throws {A}.
Arguments Untyped {A}.

Definition decoded_map {A B : Type} (f : A → B) (x : decoded A) : decoded B :=
  match x with
  | Typed a => Typed (f a)
  | Throws => Throws
  | Untyped => Untyped
  end.

(** An exception anywhere aborts the whole expression. *)
Definition decoded_pair {A B : Type} (x : decoded A) (y : decoded B) : decoded (A * B) :=
  match x, y with
  | Throws, _ | _, Throws => Throws
  | Typed a, Typed b => Typed (a, b)
  | _, _ => Untyped
  end.

Fixpoint decoded_list {A B : Type} (f : A → decoded B) (l : list A) : decoded (list B) :=
  match l with
  | [] => Typed []
  | x :: l' =>
      decoded_map (λ p : B * list B, p.1 :: p.2) (decoded_pair (f x) (decoded_list f l'))
  end.

(** [new Map(entries)], [Object.fromEntries(entries)]: a later entry
    replaces an earlier one with the same key. *)
Definition Map_of_entries {V : Type} (entries : list (string * V)) : gmap string V :=
  list_to_map (reverse entries).

(** [value.key] for a value that is not [null]. *)
Definition prop (key : string) (v : json) : option json :=
  match v with
  | JObj ms => member key ms
  | _ => None
  end.

(** The members [JSON.parse] keeps: the last one for each key. *)
Fixpoint own_properties (ms : list (string * json)) : list (string * json) :=
  match ms with
  | [] => []
  | (k, v) :: ms' =>
      if existsb (λ kv : string * json, String.eqb kv.1 k) ms' then own_properties ms'
      else (k, v) :: own_properties ms'
  end.

Definition as_string (v : option json) : decoded string :=
  match v with
  | Some (JStr s) => Typed s
  | _ => Untyped
  end.

Definition as_strings (v : option json) : decoded (list string) :=
  match v with
  | Some (JArr l) => decoded_list (λ x, as_string (Some x)) l
  | _ => Untyped
  end.

(** [(r: ParsedReactionData) => [r.emoji, r.users]] *)
Definition decode_reaction (r : json) : decoded (string * list string) :=
  match r with
  | JNull => Throws
  | _ => decoded_pair (as_string (prop "emoji" r)) (as_strings (prop "users" r))
  end.

(** [(data: ParsedMessageReaction) => [data.messageId, new Map(data.reactions.map(...))]] *)
Definition decode_message (data : json) : decoded (string * gmap string (list string)) :=
  match data with
  | JNull => Throws
  | _ =>
      decoded_pair (as_string (prop "messageId" data))
        match prop "reactions" data with
        | Some (JArr rs) => decoded_map Map_of_entries (decoded_list decode_reaction rs)
        | _ => Throws
        end
  end.

Definition decode_state (parsedReactions : json)
  : decoded MessageReactions :=
  match parsedReactions with
  | JArr items => decoded_map Map_of_entries (decoded_list decode_message items)
  | _ => Throws
  end.

(** The text [JSON.parse] makes of its argument.  [None]: the argument is a
    number, or an array (its elements joined with commas, numbers among
    them), whose text is not modelled. *)
Definition ToString (v : option json) : option string :=
  match v with
  | None => Some "undefined"
  | Some JNull => Some "null"
  | Some (JBool true) => Some "true"
  | Some (JBool false) => Some "false"
  | Some (JStr s) => Some s
  | Some (JObj _) => Some "[object Object]"
  | Some (JNum _) | Some (JArr _) => None
  end.

Definition updateReactionsState (reactionsData : option json) (w : World) : option World :=
  let caught := Some (console_line "[WWSNB] Error updating reactions state:" w) in
  match reactionsData with
  | Some (JNum _) =>
      (* the text of a number parses to a number, which has no [map], or not at all *)
      caught
  | _ =>
      text ← ToString reactionsData;
      match parse text with
      | None => caught
      | Some parsedReactions =>
          match decode_state parsedReactions with
          | Typed state => Some (updateAllReactionDisplays (set_messageReactions state w))
          | Throws => caught
          | Untyped => None
          end
      end
  end.

(** [handleWebSocketMessage], on the text of a frame. *)
Definition handleWebSocketMessage (event_data : string) (w : World) : option World :=
  let caught := Some (console_line "[WWSNB] Error handling WebSocket message:" w) in
  match parse event_data with
  | None => caught
  | Some JNull => caught
  | Some data =>
      match prop "type" data with
      | Some (JStr type) =>
          if String.eqb type "update_reactions"
          then updateReactionsState (prop "reactions" data) w
          else Some w
      | _ => Some w
      end
  end.

(** Length in UTF-16 code units of well-formed UTF-8 text. *)
Fixpoint utf16_length (s : string) : nat :=
  match s with
  | EmptyString => 0
  | String c r =>
      let n := N_of_ascii c in
      let units := if (0x80 <=? n) && (n <? 0xC0) then 0%nat
                   else if 0xF0 <=? n then 2%nat else 1%nat in
      (units + utf16_length r)%nat
  end.

(** The keys [Object.entries] lists for a string. *)
Definition unit_indices (s : string) : list string :=
  (λ i : nat, pretty i) <$> seq 0 (utf16_length s).

Definition indexed (l : list json) : list (string * json) :=
  imap (λ (i : nat) (x : json), (pretty i, x)) l.

(** [Array.isArray(users) ? users : []] *)
Definition load_users (users : json) : decoded (list string) :=
  match users with
  | JArr l => decoded_list (λ x, as_string (Some x)) l
  | _ => Typed []
  end.

Definition load_entries {V : Type} (f : json → decoded V) (entries : list (string * json))
  : decoded (gmap string V) :=
  decoded_map Map_of_entries
    (decoded_list (λ kv : string * json, decoded_map (pair kv.1) (f kv.2)) entries).

(** The inner loop of [loadReactionsFromStorage], over [Object.entries(reactions)]. *)
Definition load_reactions (reactions : json) : decoded (gmap string (list string)) :=
  match reactions with
  | JNull => Throws
  | JObj ms => load_entries load_users (own_properties ms)
  | JArr l => load_entries load_users (indexed l)
  | JStr s =>
      (* every entry is a one-unit string, not an array *)
      Typed (Map_of_entries ((λ i : string, (i, [])) <$> unit_indices s))
  | JNum _ | JBool _ => Typed ∅
  end.

(** The outer loop, over [Object.entries(reactionsObj)]. *)
Definition load_state (reactionsObj : json)
  : decoded MessageReactions :=
  match reactionsObj with
  | JNull => Throws
  | JObj ms => load_entries load_reactions (own_properties ms)
  | JArr l => load_entries load_reactions (indexed l)
  | JStr s =>
      (* every entry is a one-unit string [c], whose entries are [["0", c]] *)
      Typed (Map_of_entries ((λ i : string, (i, {["0" := []]})) <$> unit_indices s))
  | JNum _ | JBool _ => Typed ∅
  end.

Definition loadReactionsFromStorage (sessionToken : string) (w : World) : option World :=
  let caught :=
    Some (set_messageReactions ∅ (console_line "[WWSNB] Error loading reactions:" w)) in
  match truthy (localStorage w !! storageKey sessionToken) with
  | None => Some (updateAllReactionDisplays w)
  | Some saved =>
      match parse saved with
      | None => caught
      | Some reactionsObj =>
          match load_state reactionsObj with
          | Typed state => Some (updateAllReactionDisplays (set_messageReactions state w))
          | Throws => caught
          | Untyped => None
          end
      end
  end.

(** *** Transport *)

Definition handleReconnection (w : World) : World :=
  if bool_decide (reconnectAttempts w < maxReconnectAttempts)%nat then
    let w1 := set_reconnectAttempts (S (reconnectAttempts w)) w in
    let w2 :=
      console_line ("[WWSNB] Attempting to reconnect (" +:+ pretty (reconnectAttempts w1)
                    +:+ "/" +:+ pretty maxReconnectAttempts +:+ ")...") w1 in
    set_reconnectTimers (S (reconnectTimers w2)) w2
  else console_line "[WWSNB] Max reconnection attempts reached" w.

(** [connectWebSocket]: closing the previous socket only starts its closing
    handshake; the socket that replaces it is still connecting. *)
Definition connectWebSocket (w : World) : World :=
  set_sockets (S (sockets w)) (set_ws (Some CONNECTING) w).

(** [ws.onopen]: [false] when the handler is left by an exception. *)
Definition onopen (w : World) : bool * World :=
  let w1 := console_line "[WWSNB] WebSocket connected" w in
  let w2 := set_reconnectAttempts 0 w1 in
  match sendInitialState (getSessionToken w2) w2 with
  | (true, w3) => (true, processQueue w3)
  | (false, w3) => (false, w3)
  end.

Definition onerror (w : World) : World :=
  handleReconnection (console_line "[WWSNB] WebSocket error:" w).

(** *** Toggling a reaction *)

(** [sendReactionUpdate]: [false] when the promise rejects. *)
Definition sendReactionUpdate (messageId emoji userId : string) (w : World) : bool * World :=
  let message :=
    reaction_update messageId emoji userId (getReactionAction messageId emoji userId w) in
  if isConnectionReady w then sendMessage message w
  else (true, queueMessage message w).

Definition addReaction (messageId emoji : string) (w : World) : World :=
  match truthy (actualUserName w) with
  | None => console_line "[WWSNB] User name is not defined" w
  | Some currentUserName =>
      match sendReactionUpdate messageId emoji currentUserName w with
      | (true, w1) =>
          let w2 := updateLocalReaction messageId emoji currentUserName w1 in
          match updateMessageReactions messageId w2 with
          | (true, w3) => saveToLocalStorage (getSessionToken w3) w3
          | (false, w3) => console_line "[WWSNB] Failed to update reaction:" w3
          end
      | (false, w1) => console_line "[WWSNB] Failed to update reaction:" w1
      end
  end.

(** *** Events *)

Inductive Event : Type :=
| Open                                  (* the socket of [this.ws] opened *)
| Close (current : bool)                (* a socket closed: that of [this.ws], or an earlier one *)
| Error (current : bool)
| Message (data : string)
| ReconnectTimer                        (* a timer set by [handleReconnection] fires *)
| Pick (messageId emoji : string)       (* click in the picker or on a badge *)
| Scan.                                 (* the interval or the observer *)

Inductive Completion : Type := Normal | Uncaught.

Definition socket_gone (current : bool) (w : World) : World :=
  if current then set_ws (Some CLOSED) w else w.

(** One event, handled to completion. [None]: see [decoded]. *)
Definition handle (e : Event) (w : World) : option (Completion * World) :=
  match e with
  | Open =>
      match onopen (set_ws (Some OPEN) w) with
      | (true, w') => Some (Normal, w')
      | (false, w') => Some (Uncaught, w')
      end
  | Close current => Some (Normal, handleReconnection (socket_gone current w))
  | Error current => Some (Normal, onerror (socket_gone current w))
  | Message data => pair Normal <$> handleWebSocketMessage data w
  | ReconnectTimer =>
      match reconnectTimers w with
      | O => Some (Normal, w)
      | S pending => Some (Normal, connectWebSocket (set_reconnectTimers pending w))
      end
  | Pick messageId emoji => Some (Normal, addReaction messageId emoji w)
  | Scan => Some (Normal, checkAndAddReactionButtons w)
  end.

Fixpoint run_events (events : list Event) (w : World) : option World :=
  match events with
  | [] => Some w
  | e :: rest => '(_, w') ← handle e w; run_events rest w'
  end.

(** [setup], after the observer and the interval are installed. *)
Definition setup (w : World) : option World :=
  let w1 := checkAndAddReactionButtons w in
  let sessionToken := getSessionToken w1 in
  loadReactionsFromStorage sessionToken (connectWebSocket w1).

(** A page before [setup]. *)
Definition fresh (page : list MessageContainer) (token user : option string) : World :=
  {| messageReactions := ∅; messageQueue := []; ws := None; reconnectAttempts := 0;
     localStorage := ∅; document := page; sessionTokenParam := token;
     actualUserName := user; console := []; sent := []; reconnectTimers := 0;
     sockets := 0; sendFaults := [] |}.

(** ** Notions and examples used in the statements *)

(** *** The toggle *)

(** [reactions?.get(emoji) || []]: the reactors of an emoji under a message. *)
Definition reactors (messageId emoji : string)
    (state : MessageReactions) : list string :=
  default [] (state !! messageId ≫= (.!! emoji)).

Definition removed (userId : string) (users : list string) : list string :=
  filter (λ user, user ≠ userId) users.

Definition toggle_twice (messageId emoji userId : string)
    (state : MessageReactions) :=
  updateLocalReaction_state messageId emoji userId
    (updateLocalReaction_state messageId emoji userId state).

Definition thumb : string := "👍".

Definition alice_then_bob : MessageReactions :=
  {["msg-1" := {[thumb := ["alice"; "bob"]]}]}.

(** *** Invariants of the store under toggles *)

Definition no_empty_entry (state : MessageReactions) : Prop :=
  map_Forall (λ _ reactions,
    map_Forall (λ _ (users : list string), users ≠ []) reactions) state.

Definition no_duplicate_reactor (state : MessageReactions) : Prop :=
  map_Forall (λ _ reactions,
    map_Forall (λ _ (users : list string), NoDup users) reactions) state.

(** A sequence of local toggles (messageId, emoji, userId), oldest first. *)
Definition toggles (ts : list (string * string * string))
    (state : MessageReactions)
  : MessageReactions :=
  foldl (λ st t, updateLocalReaction_state t.1.1 t.1.2 t.2 st) state ts.

Definition alice_twice : MessageReactions :=
  {["msg-1" := {[thumb := ["alice"; "alice"]]}]}.

(** *** Message identity *)

(** The derivation in the words of the specification, on the text of the
    three sub-elements ([None] for an element that is absent): default to
    the empty string, join with a separator, encode, strip what is not
    alphanumeric, truncate to 32 characters. *)
Definition identity_of_fields (username body timestamp : option string) : string :=
  let joined :=
    default EmptyString username +:+ "-" +:+ default EmptyString body +:+ "-"
    +:+ default EmptyString timestamp in
  String.substring 0 32 (strip_non_alnum (btoa (encodeURIComponent joined))).

Fixpoint all_chars (P : ascii → bool) (s : string) : bool :=
  match s with
  | EmptyString => true
  | String c r => P c && all_chars P r
  end.

Definition hello_message : MessageContainer :=
  {| dataset_messageId := None; dataset_hasReactions := None;
     childNodes := [HostElement "chatUserName" "bob";
                    HostElement "chatUserMessageText" "hello world"] |}.

Definition hello_message_again : MessageContainer :=
  {| dataset_messageId := Some "msg-Ym9iLWhlbGxvJTIwd29ybGQt"; dataset_hasReactions := Some "true";
     childNodes := [HostElement "moderatorAvatar" EmptyString;
                    HostElement "chatUserMessageText" "hello world";
                    HostElement "chatMessageTimestamp" EmptyString;
                    HostElement "chatUserName" "bob";
                    ReactionButton "msg-Ym9iLWhlbGxvJTIwd29ybGQt"; ReactionsWrapper []] |}.

(** *** Reconnection *)

(** The retry counter, the reconnect timers pending and the sockets built. *)
Definition retry (w : World) : nat * nat * nat :=
  (reconnectAttempts w, reconnectTimers w, sockets w).

Definition is_failure (e : Event) : bool :=
  match e with Close _ | Error _ => true | _ => false end.

(** A connect lifecycle with eight failures: five reconnects, no sixth. *)
Definition eight_failures : list Event :=
  [Error true; Close true; ReconnectTimer; Close false; ReconnectTimer; Error true;
   Close true; Close true; ReconnectTimer; ReconnectTimer; ReconnectTimer;
   Close true; Error true; ReconnectTimer].

(** *** The outbound queue *)

(** The frame [sendMessage] hands to the socket. *)
Definition frame_of (message : WebSocketMessage) : string :=
  stringify (message_json message).

Definition sends_ok (n : nat) : list bool := replicate n false.

(** Messages queued one after the other while the socket is not open. *)
Definition queue_all (messages : list WebSocketMessage) (w : World) : World :=
  foldl (λ w message, queueMessage message w) w messages.

(** The frame [sendInitialState] sends. *)
Definition initial_frame (w : World) : string :=
  frame_of (update_reactions (getSessionToken w)
              (stringify (entries_array (messageReactions w)))).

Definition thumb_by (userId : string) (action : Action) : WebSocketMessage :=
  reaction_update "msg-1" thumb userId action.

(** *** Storage round trip *)

(** A state with two messages, one of them without reactions. *)
Definition two_messages : MessageReactions :=
  <["msg-2" := ∅]> alice_then_bob.

(** *** Malformed JSON *)

Definition known_state : World :=
  set_ws (Some OPEN)
    (set_messageReactions alice_then_bob (fresh [] (Some "s1") (Some "alice"))).

(** *** Pushes from the relay *)

(** The frame of the claim: the string sits under [data], and lists pairs. *)
Definition claimed_push : string :=
  js "{'type':'update_reactions','data':{'reactions':'[[\'msg-1\',[[\'👍\',[\'alice\']]]]]'}}".

(** The same pairs directly under [reactions]. *)
Definition claimed_push_flat : string :=
  js "{'type':'update_reactions','reactions':'[[\'msg-1\',[[\'👍\',[\'alice\']]]]]'}".

(** What the handler reads: [ParsedMessageReaction] and [ParsedReactionData]. *)
Definition parsed_reaction (r : string * list string) : json :=
  JObj [("emoji", JStr r.1); ("users", JArr (JStr <$> r.2))].

Definition parsed_message (m : string * list (string * list string)) : json :=
  JObj [("messageId", JStr m.1); ("reactions", JArr (parsed_reaction <$> m.2))].

(** A parsed value is an object with the members [emoji], a string, and
    [users], an array of strings (other members are allowed). *)
Definition is_reaction (r : json) (entry : string * list string) : Prop :=
  ∃ members, r = JObj members ∧
             member "emoji" members = Some (JStr entry.1) ∧
             member "users" members = Some (JArr (JStr <$> entry.2)).

(** A parsed value is an object with the members [messageId], a string, and
    [reactions], an array of such reaction objects. *)
Definition is_message (data : json) (entry : string * list (string * list string)) : Prop :=
  ∃ members reactions, data = JObj members ∧
                       member "messageId" members = Some (JStr entry.1) ∧
                       member "reactions" members = Some (JArr reactions) ∧
                       Forall2 is_reaction reactions entry.2.

(** An item of the pushed array is itself an array, as a [[key, value]]
    pair is. *)
Definition is_pair (item : json) : Prop := ∃ elems, item = JArr elems.

(** The inbound frames that keep the handler within the declared types:
    text that is not JSON; JSON that is not an [update_reactions] frame; an
    [update_reactions] frame without a member [reactions], or whose
    [reactions] is a string that is not JSON, or the JSON of an array of
    message objects, or of an array that holds an array. *)
Inductive declared_frame (data : string) : Prop :=
| not_json :
    parse data = None → declared_frame data
| other_frame frame :
    parse data = Some frame →
    prop "type" frame ≠ Some (JStr "update_reactions") → declared_frame data
| no_reactions frame :
    parse data = Some frame →
    prop "type" frame = Some (JStr "update_reactions") →
    prop "reactions" frame = None → declared_frame data
| reactions_not_json frame text :
    parse data = Some frame →
    prop "type" frame = Some (JStr "update_reactions") →
    prop "reactions" frame = Some (JStr text) →
    parse text = None → declared_frame data
| reactions_typed frame text items entries :
    parse data = Some frame →
    prop "type" frame = Some (JStr "update_reactions") →
    prop "reactions" frame = Some (JStr text) →
    parse text = Some (JArr items) →
    Forall2 is_message items entries → declared_frame data
| reactions_pairs frame text items :
    parse data = Some frame →
    prop "type" frame = Some (JStr "update_reactions") →
    prop "reactions" frame = Some (JStr text) →
    parse text = Some (JArr items) →
    Exists is_pair items → declared_frame data.

Definition pushed_state (entries : list (string * list (string * list string)))
  : MessageReactions :=
  Map_of_entries ((λ m : string * list (string * list string), (m.1, Map_of_entries m.2))
                    <$> entries).

(** *** Toggling and the transport *)

Definition hello_id : string := "msg-Ym9iLWhlbGxvJTIwd29ybGQt".

(** A page with one message, scanned, whose socket is still connecting. *)
Definition before_open : World :=
  connectWebSocket (checkAndAddReactionButtons (fresh [hello_message] None (Some "alice"))).

(** *** The end of the life cycle *)

(** [ws.close()]: a socket that is connecting or open starts closing. *)
Definition ws_close (w : World) : World :=
  match ws w with
  | Some CONNECTING | Some OPEN => set_ws (Some CLOSING) w
  | _ => w
  end.

(** [cleanup].  The observer and the interval it stops are where the [Scan]
    events come from; the world does not hold them. *)
Definition cleanup (isRefresh : bool) (w : World) : World :=
  let w1 := ws_close w in
  if isRefresh then saveToLocalStorage (getSessionToken w1) w1
  else set_localStorage (delete (storageKey (getSessionToken w1)) (localStorage w1)) w1.

(** The parts of the world a push or a scan must not reach. *)
Definition outside (w : World) :=
  (localStorage w, sent w, messageQueue w, ws w, sessionTokenParam w).

(** A container that carries the [hasReactions] mark. *)
Definition attached (c : MessageContainer) : Prop := truthy (dataset_hasReactions c) ≠ None.

(** [messageContainer.querySelector('.reactions-container')]: the badges in
    the first reactions container among the nodes. *)
Fixpoint shown (nodes : list Node) : option (list Badge) :=
  match nodes with
  | [] => None
  | ReactionsWrapper badges :: _ | ReactionsContainer badges :: _ => Some badges
  | _ :: rest => shown rest
  end.

(** A character below U+0080. *)
Definition is_ascii (c : ascii) : bool := (N_of_ascii c <? 128)%N.

(** ** Moderator highlighting (modules/moderator.ts and its earlier script) *)

Module Moderator.

(** A node below the [span] of the user name: a text, or an element with its
    classes and its own child nodes. *)
#[warnings="-register-all"]
Inductive SpanChild : Type :=
| TextNode (text : string)
| ChildElement (className : list string) (children : list SpanChild).

(** [span.moderator-badge] with the text MOD *)
Definition moderator_badge : SpanChild :=
  ChildElement ["moderator-badge"] [TextNode "MOD"].

(** The node or one of its descendants is an element of class
    [moderator-badge]. *)
Fixpoint holds_badge (node : SpanChild) : bool :=
  match node with
  | TextNode _ => false
  | ChildElement className children =>
      bool_decide ("moderator-badge" ∈ className) || existsb holds_badge children
  end.

(** The elements of class [moderator-badge] among the node and its
    descendants. *)
Fixpoint count_badges (node : SpanChild) : nat :=
  match node with
  | TextNode _ => 0
  | ChildElement className children =>
      (if bool_decide ("moderator-badge" ∈ className) then 1 else 0)
      + sum_list (count_badges <$> children)
  end%nat.

(** An element that may be tagged: its classes, whether it holds a
    [[data-test="moderatorAvatar"]] element, and the child nodes of the first
    [.sc-lmONJn span] in it, if there is one. *)
Record Element : Type := {
  classList : list string;
  moderatorAvatar : bool;
  username : option (list SpanChild);
}.

(** [classList.add(token)] *)
Definition classList_add (token : string) (classes : list string) : list string :=
  if bool_decide (token ∈ classes) then classes else (classes ++ [token])%list.

(** [username.querySelector('.moderator-badge')] looks through all the
    descendants of the span. *)
Definition addClassModerator (message : Element) : Element :=
  {| classList := classList_add "moderator-message" (classList message);
     moderatorAvatar := moderatorAvatar message;
     username :=
       match username message with
       | Some nodes =>
           if existsb holds_badge nodes then Some nodes
           else Some (nodes ++ [moderator_badge])%list
       | None => None
       end |}.

(** A chat message with its [dataset.moderatorChecked] and its closest
    [[role="listitem"]] ancestor, if it has one. *)
Record ChatMessage : Type := {
  moderatorChecked : option string;
  listitem : option Element;
}.

(** [checkForModeratorMessages]: [false] when it is left by the [TypeError]
    of reading [querySelector] on [null]. *)
Definition checkForModeratorMessages (message : ChatMessage) : bool * ChatMessage :=
  if bool_decide (moderatorChecked message = Some "true") then (true, message)
  else
    match listitem message with
    | None => (false, {| moderatorChecked := Some "true"; listitem := None |})
    | Some parent =>
        (true, {| moderatorChecked := Some "true";
                  listitem := Some (if moderatorAvatar parent
                                    then addClassModerator parent else parent) |})
    end.

(** The earlier script tags the message container itself and keeps its flag
    in the [moderator-checked] attribute. *)
Record Container : Type := {
  moderator_checked : bool;
  content : Element;
}.

Definition checkModeratorMessage (messageContainer : Container) : Container :=
  if moderator_checked messageContainer then messageContainer
  else
    {| moderator_checked := true;
       content := if moderatorAvatar (content messageContainer)
                  then addClassModerator (content messageContainer)
                  else content messageContainer |}.

Definition checkModeratorMessages (messages : list Container) : list Container :=
  checkModeratorMessage <$> messages.

(** The elements of class [moderator-badge] below the span of the user
    name. *)
Definition badges (message : Element) : nat :=
  sum_list (count_badges <$> default [] (username message)).

End Moderator.

(** * Properties *)

(** ** Strings *)

Lemma append_cons (c : ascii) (r s : string) : String c r +:+ s = String c (r +:+ s).
Proof. reflexivity. Qed.

Lemma append_empty_l (s : string) : EmptyString +:+ s = s.
Proof. reflexivity. Qed.

Lemma append_empty_r (s : string) : s +:+ EmptyString = s.
Proof. induction s as [|c r IH]; [done|]. rewrite append_cons. by f_equal. Qed.

Lemma append_assoc (a b c : string) : (a +:+ b) +:+ c = a +:+ (b +:+ c).
Proof. induction a as [|x r IH]; [done|]. rewrite !append_cons. by f_equal. Qed.

(** ** [JSON.parse] reads back what [JSON.stringify] wrote *)

Section json_induction.
Variable P : json → Prop.
Hypothesis HNull : P JNull.
Hypothesis HBool : ∀ b, P (JBool b).
Hypothesis HNum : ∀ lit, P (JNum lit).
Hypothesis HStr : ∀ s, P (JStr s).
Hypothesis HArr : ∀ l, Forall P l → P (JArr l).
Hypothesis HObj : ∀ ms, Forall (λ kv, P kv.2) ms → P (JObj ms).

Lemma json_nested_ind (v : json) : P v.
Proof.
  revert v. fix IH 1. intros [|b|lit|s|l|ms].
  - apply HNull.
  - apply HBool.
  - apply HNum.
  - apply HStr.
  - apply HArr. revert l. fix IHl 1. intros [|x l].
    + constructor.
    + constructor; [apply IH | apply IHl].
  - apply HObj. revert ms. fix IHms 1. intros [|[k x] ms].
    + constructor.
    + constructor; [apply IH | apply IHms].
Qed.

End json_induction.

Lemma print_arr_cons x xs k :
  print (JArr (x :: xs)) k = String "[" (print x (print_elems xs k)).
Proof.
  simpl. do 2 f_equal. induction xs as [|y l IH]; simpl; [done|]. by rewrite IH.
Qed.

Lemma print_obj_cons key x ms k :
  print (JObj ((key, x) :: ms)) k =
  String "{" (quote key (String ":" (print x (print_members ms k)))).
Proof.
  simpl. do 4 f_equal. induction ms as [|[key' y] l IH]; simpl; [done|].
  by rewrite IH.
Qed.

Lemma tokens_arr_cons x xs ts :
  tokens (JArr (x :: xs)) ts = TLBracket :: tokens x (tokens_elems xs ts).
Proof.
  simpl. do 2 f_equal. induction xs as [|y l IH]; simpl; [done|]. by rewrite IH.
Qed.

Lemma tokens_obj_cons key x ms ts :
  tokens (JObj ((key, x) :: ms)) ts =
  TLBrace :: TString key :: TColon :: tokens x (tokens_members ms ts).
Proof.
  simpl. do 4 f_equal. induction ms as [|[key' y] l IH]; simpl; [done|].
  by rewrite IH.
Qed.

Lemma lex_idle_fst k s ts : lex Idle k = Some (s, ts) → s = EmptyString.
Proof.
  revert s ts. induction k as [|c r IH]; intros s ts; simpl.
  - by intros [= <- _].
  - unfold idle, emit. destruct (is_ws c); [by apply IH|].
    destruct (Ascii.eqb c dquote).
    { destruct (lex (InString None) r) as [[??]|]; simpl; [|done]. by intros [= <- _]. }
    destruct (punct c).
    { destruct (lex Idle r) as [[??]|]; simpl; [|done]. by intros [= <- _]. }
    destruct (is_word_char c); [|done].
    destruct (lex InWord r) as [[w ?]|]; simpl; [|done].
    destruct (classify (String c w)); simpl; [|done]. by intros [= <- _].
Qed.

Lemma keep_idle s k : keep s (lex Idle k) = '(_, ts) ← lex Idle k; Some (s, ts).
Proof.
  unfold keep. destruct (lex Idle k) as [[s0 ts]|] eqn:E; simpl; [|done].
  apply lex_idle_fst in E as ->. by rewrite append_empty_r.
Qed.

Lemma lex_escape_char c rest :
  lex (InString None) (escape_char c rest) =
  keep (String c EmptyString) (lex (InString None) rest).
Proof.
  destruct c as [[] [] [] [] [] [] [] []]; reflexivity.
Qed.

Lemma lex_escape_chars s k :
  lex (InString None) (escape_chars s (String dquote k)) = keep s (lex Idle k).
Proof.
  induction s as [|c r IH]; simpl.
  - done.
  - rewrite lex_escape_char, IH. unfold keep.
    by destruct (lex Idle k) as [[??]|].
Qed.

Lemma lex_quote s k : lex Idle (quote s k) = emit (TString s) (lex Idle k).
Proof.
  unfold quote. simpl. unfold idle. simpl.
  rewrite lex_escape_chars, keep_idle. unfold emit.
  by destruct (lex Idle k) as [[??]|].
Qed.

Lemma lex_word_end k : delimited k → lex InWord k = lex Idle k.
Proof. destruct k as [|c r]; simpl; [done|]. by intros ->. Qed.

Lemma lex_null k :
  delimited k → lex Idle ("null" +:+ k) = emit (TScalar JNull) (lex Idle k).
Proof.
  intros Hk. rewrite !append_cons, append_empty_l. cbn.
  rewrite (lex_word_end _ Hk). unfold emit.
  destruct (lex Idle k) as [[s ts]|] eqn:E; [|done].
  apply lex_idle_fst in E as ->. reflexivity.
Qed.

Lemma lex_true k :
  delimited k → lex Idle ("true" +:+ k) = emit (TScalar (JBool true)) (lex Idle k).
Proof.
  intros Hk. rewrite !append_cons, append_empty_l. cbn.
  rewrite (lex_word_end _ Hk). unfold emit.
  destruct (lex Idle k) as [[s ts]|] eqn:E; [|done].
  apply lex_idle_fst in E as ->. reflexivity.
Qed.

Lemma lex_false k :
  delimited k → lex Idle ("false" +:+ k) = emit (TScalar (JBool false)) (lex Idle k).
Proof.
  intros Hk. rewrite !append_cons, append_empty_l. cbn.
  rewrite (lex_word_end _ Hk). unfold emit.
  destruct (lex Idle k) as [[s ts]|] eqn:E; [|done].
  apply lex_idle_fst in E as ->. reflexivity.
Qed.

Lemma emit_emits t f r : emit t (emits f r) = emits (λ ts, t :: f ts) r.
Proof. unfold emit, emits. by destruct r as [[??]|]. Qed.

Lemma emits_emits f g r : emits f (emits g r) = emits (λ ts, f (g ts)) r.
Proof. unfold emits. by destruct r as [[??]|]. Qed.

Lemma emits_ext f g r : (∀ ts, f ts = g ts) → emits f r = emits g r.
Proof. intros H. unfold emits. destruct r as [[??]|]; simpl; by rewrite ?H. Qed.

Lemma emit_as_emits t r : emit t r = emits (cons t) r.
Proof. reflexivity. Qed.

Lemma lex_punct c t r :
  is_ws c = false → Ascii.eqb c dquote = false → punct c = Some t →
  lex Idle (String c r) = emit t (lex Idle r).
Proof. intros H1 H2 H3. simpl. unfold idle. by rewrite H1, H2, H3. Qed.

Lemma lex_print_elems l k :
  Forall (λ v, ∀ k, delimited k → lex Idle (print v k) = emits (tokens v) (lex Idle k)) l →
  lex Idle (print_elems l k) = emits (tokens_elems l) (lex Idle k).
Proof.
  induction 1 as [|y l Hy _ IH]; simpl print_elems.
  - by erewrite lex_punct.
  - erewrite lex_punct by done. rewrite Hy, IH, emits_emits, emit_emits; [done|].
    by destruct l.
Qed.

Lemma lex_print_members ms k :
  Forall (λ kv, ∀ k, delimited k →
            lex Idle (print kv.2 k) = emits (tokens kv.2) (lex Idle k)) ms →
  lex Idle (print_members ms k) = emits (tokens_members ms) (lex Idle k).
Proof.
  induction 1 as [|[key y] l Hy _ IH]; simpl print_members.
  - by erewrite lex_punct.
  - erewrite lex_punct by done. rewrite lex_quote. erewrite lex_punct by done.
    simpl in Hy. rewrite Hy, IH; [|by destruct l as [|[??]?]].
    by rewrite emits_emits, !emit_emits.
Qed.

Lemma lex_print v :
  no_num v = true →
  ∀ k, delimited k → lex Idle (print v k) = emits (tokens v) (lex Idle k).
Proof.
  induction v as [|b|lit|s|l IH|ms IH] using json_nested_ind; intros Hv k Hk.
  - simpl print. by rewrite lex_null.
  - destruct b; simpl print; by rewrite ?lex_true, ?lex_false.
  - done.
  - simpl print. by rewrite lex_quote.
  - destruct l as [|x xs].
    + simpl print. rewrite !append_cons, append_empty_l.
      do 2 (erewrite lex_punct by done). unfold emit, emits.
      by destruct (lex Idle k) as [[??]|].
    + simpl in Hv. apply andb_prop in Hv as [Hx Hxs].
      apply Forall_cons in IH as [IHx IHxs].
      rewrite print_arr_cons. erewrite lex_punct by done.
      rewrite (IHx Hx) by (by destruct xs).
      rewrite lex_print_elems, emits_emits, emit_emits.
      { apply emits_ext. intros ts. by rewrite tokens_arr_cons. }
      clear -IHxs Hxs. induction xs as [|y l IHl]; [done|].
      simpl in Hxs. apply andb_prop in Hxs as [Hy Hl].
      apply Forall_cons in IHxs as [IHy IHxs]. constructor; auto.
  - destruct ms as [|[key x] ms].
    + simpl print. rewrite !append_cons, append_empty_l.
      do 2 (erewrite lex_punct by done). unfold emit, emits.
      by destruct (lex Idle k) as [[??]|].
    + simpl in Hv. apply andb_prop in Hv as [Hx Hms].
      apply Forall_cons in IH as [IHx IHms]. simpl in IHx.
      rewrite print_obj_cons. erewrite lex_punct by done.
      rewrite lex_quote. erewrite lex_punct by done.
      rewrite (IHx Hx) by (by destruct ms as [|[??]?]).
      rewrite lex_print_members, emits_emits, !emit_emits.
      { apply emits_ext. intros ts. by rewrite tokens_obj_cons. }
      clear -IHms Hms. induction ms as [|[key' y] l IHl]; [done|].
      simpl in Hms. apply andb_prop in Hms as [Hy Hl].
      apply Forall_cons in IHms as [IHy IHms]. constructor; auto.
Qed.

Lemma run_SArr0 x stk ts :
  run (SArr0 stk) (tokens x ts) = run (SVal (FArr [] :: stk)) (tokens x ts).
Proof. destruct x as [| | | |[|??]|[|[??]?]]; reflexivity. Qed.

Lemma run_tokens_elems l :
  Forall (λ v, ∀ stk ts, run (SVal stk) (tokens v ts) = run (feed v stk) ts) l →
  ∀ done stk ts,
    run (SArrN done stk) (tokens_elems l ts) = run (feed (JArr (rev done ++ l)) stk) ts.
Proof.
  induction 1 as [|y l Hy _ IH]; intros done stk ts; simpl.
  - by rewrite app_nil_r.
  - rewrite Hy. simpl. rewrite IH. simpl. by rewrite <- app_assoc.
Qed.

Lemma run_tokens_members ms :
  Forall (λ kv, ∀ stk ts, run (SVal stk) (tokens kv.2 ts) = run (feed kv.2 stk) ts) ms →
  ∀ done stk ts,
    run (SObjN done stk) (tokens_members ms ts) = run (feed (JObj (rev done ++ ms)) stk) ts.
Proof.
  induction 1 as [|[key y] l Hy _ IH]; intros done stk ts; simpl.
  - by rewrite app_nil_r.
  - simpl in Hy. rewrite Hy. simpl. rewrite IH. simpl. by rewrite <- app_assoc.
Qed.

Lemma run_tokens v :
  ∀ stk ts, run (SVal stk) (tokens v ts) = run (feed v stk) ts.
Proof.
  induction v as [|b|lit|s|l IH|ms IH] using json_nested_ind; intros stk ts;
    try reflexivity.
  - destruct l as [|x xs]; [reflexivity|].
    apply Forall_cons in IH as [IHx IHxs].
    rewrite tokens_arr_cons.
    change (run (SVal stk) (TLBracket :: ?r)) with (run (SArr0 stk) r).
    rewrite run_SArr0, IHx. simpl feed. by rewrite run_tokens_elems.
  - destruct ms as [|[key x] ms]; [reflexivity|].
    apply Forall_cons in IH as [IHx IHms]. simpl in IHx.
    rewrite tokens_obj_cons.
    change (run (SVal stk) (TLBrace :: TString key :: TColon :: ?r))
      with (run (SVal (FObj [] key :: stk)) r).
    rewrite IHx. simpl feed. by rewrite run_tokens_members.
Qed.

(** [JSON.parse (JSON.stringify v)] gives [v] back. *)
Lemma parse_stringify v : no_num v = true → parse (stringify v) = Some v.
Proof.
  intros Hv. unfold parse, stringify. rewrite (lex_print v Hv) by done.
  simpl. by rewrite run_tokens.
Qed.

(** ** The primitives on known values *)

Example parse_escapes :
  parse (js "'👍 é\t\/\\ A'") = Some (JStr ("👍 é" +:+ String "009" "/\ A")).
Proof. vm_compute. reflexivity. Qed.

Example parse_unicode_escapes :
  parse (js "'\ud83d\udc4d\u00E9\u0041'") = Some (JStr "👍éA").
Proof. vm_compute. reflexivity. Qed.

Example parse_nested :
  parse (js " [1, -2.5e+3, true, null, {'a' : [], 'a' : 'x'}] ") =
  Some (JArr [JNum "1"; JNum "-2.5e+3"; JBool true; JNull;
              JObj [("a", JArr []); ("a", JStr "x")]]).
Proof. vm_compute. reflexivity. Qed.

Example parse_rejects :
  Forall (λ text, parse text = None)
    [EmptyString; "undefined"; "[1,]"; "01"; "1."; "+1"; js "{'a':1,}"; js "{a:1}";
     js "'open"; js "['a' 'b']"; "nul"; "[1] 2"; js "'\x41'"; "[object Object]"].
Proof. repeat constructor. Qed.

Example stringify_escapes :
  stringify (JObj [("a", JArr [JStr (js "x'y\z" +:+ String "010" "é"); JNull]); ("b", JObj [])])
  = js "{'a':['x\'y\\z\né',null],'b':{}}".
Proof. vm_compute. reflexivity. Qed.

Example btoa_vectors :
  btoa "M" = "TQ==" ∧ btoa "Ma" = "TWE=" ∧ btoa "Man" = "TWFu" ∧
  btoa "light work." = "bGlnaHQgd29yay4=" ∧ btoa "~~~" = "fn5+".
Proof. vm_compute. repeat split. Qed.

Example encodeURIComponent_vector :
  encodeURIComponent "bob é-(ok)!~*'/?:@&=+$,#" =
  "bob%20%C3%A9-(ok)!~*'%2F%3F%3A%40%26%3D%2B%24%2C%23".
Proof. vm_compute. reflexivity. Qed.

Example utf16_length_vector : utf16_length "aé👍" = 4%nat.
Proof. reflexivity. Qed.

(** ** What the display leaves alone

    Rendering writes to the page and to the console only: every view of the
    world that ignores these two is the same before and after. *)

Section display_frame.
Context {A : Type} (view : World → A).
Hypothesis view_console : ∀ v w, view (set_console v w) = view w.
Hypothesis view_document : ∀ v w, view (set_document v w) = view w.

Lemma updateReactionDisplay_frame messageId w :
  view (updateReactionDisplay messageId w).2 = view w.
Proof.
  unfold updateReactionDisplay, console_line.
  destruct (truthy _); simpl; by rewrite ?view_console.
Qed.

Lemma forEach_from_frame f containers w :
  (∀ c w, view (f c w).2 = view w) →
  view (forEach_from f containers w).2 = view w.
Proof.
  intros Hf. revert w. induction containers as [|c rest IH]; intros w; simpl; [done|].
  destruct (f c w) as [c' w1] eqn:E1.
  destruct (forEach_from f rest w1) as [rest' w2] eqn:E2. simpl.
  specialize (IH w1). specialize (Hf c w). rewrite E1 in Hf. rewrite E2 in IH.
  simpl in *. congruence.
Qed.

Lemma forEach_container_frame f w :
  (∀ c w, view (f c w).2 = view w) → view (forEach_container f w) = view w.
Proof.
  intros Hf. unfold forEach_container.
  pose proof (forEach_from_frame f (document w) w Hf) as H.
  destruct (forEach_from f (document w) w). by rewrite view_document.
Qed.

Lemma updateAllReactionDisplays_frame w : view (updateAllReactionDisplays w) = view w.
Proof.
  apply forEach_container_frame. intros c w'. unfold displayReactions.
  destruct (bool_decide _); [|done].
  pose proof (updateReactionDisplay_frame
                (default (generateMessageId c) (truthy (dataset_messageId c))) w') as H.
  by destruct (updateReactionDisplay _ w').
Qed.

Lemma updateMessageReactions_frame messageId w :
  view (updateMessageReactions messageId w).2 = view w.
Proof.
  unfold updateMessageReactions. destruct (selector_plain messageId); [|done].
  destruct (list_find _ _) as [[i ?]|]; [|done].
  pose proof (updateReactionDisplay_frame messageId w) as H.
  destruct (updateReactionDisplay messageId w). simpl. by rewrite view_document.
Qed.
End display_frame.

(** ** The toggle *)

Lemma includes_true userId users : includes userId users = true ↔ userId ∈ users.
Proof. unfold includes. by rewrite bool_decide_eq_true. Qed.

Lemma includes_false userId users : includes userId users = false ↔ userId ∉ users.
Proof. unfold includes. by rewrite bool_decide_eq_false. Qed.

Lemma removed_absent userId users : userId ∉ users → removed userId users = users.
Proof.
  intros H. unfold removed. induction users as [|x l IH]; [done|].
  apply not_elem_of_cons in H as [Hx Hl].
  rewrite filter_cons_True by done. by rewrite IH.
Qed.

Lemma not_in_removed userId users : userId ∉ removed userId users.
Proof. unfold removed. rewrite list_elem_of_filter. by intros [? _]. Qed.

(** The reactors of [emoji] after one toggle. *)
Lemma toggle_lookup emoji userId reactions :
  default [] (toggle emoji userId reactions !! emoji) =
  let users := default [] (reactions !! emoji) in
  if includes userId users then removed userId users else (users ++ [userId])%list.
Proof.
  unfold toggle. fold (removed userId (default [] (reactions !! emoji))).
  destruct (includes userId (default [] (reactions !! emoji))).
  - destruct (removed userId (default [] (reactions !! emoji))) eqn:E.
    + by rewrite lookup_delete_eq.
    + by rewrite lookup_insert_eq.
  - by rewrite lookup_insert_eq.
Qed.

Lemma toggle_lookup_ne emoji emoji' userId reactions :
  emoji ≠ emoji' → toggle emoji userId reactions !! emoji' = reactions !! emoji'.
Proof.
  intros Hne. unfold toggle.
  destruct (includes userId (default [] (reactions !! emoji))).
  - destruct (filter _ _); by rewrite ?lookup_delete_ne, ?lookup_insert_ne.
  - by rewrite lookup_insert_ne.
Qed.

Lemma reactors_update messageId emoji userId state :
  reactors messageId emoji (updateLocalReaction_state messageId emoji userId state) =
  let users := reactors messageId emoji state in
  if includes userId users then removed userId users else (users ++ [userId])%list.
Proof.
  unfold reactors, updateLocalReaction_state. rewrite lookup_insert_eq. simpl.
  rewrite toggle_lookup. by destruct (state !! messageId).
Qed.

(** C3, as stated: toggling twice restores the reactor list, order included.
    It does not: a reactor who was not last comes back at the end. *)
Lemma toggle_twice_moves_reactor :
  reactors "msg-1" thumb alice_then_bob = ["alice"; "bob"] ∧
  reactors "msg-1" thumb (toggle_twice "msg-1" thumb "alice" alice_then_bob)
    = ["bob"; "alice"] ∧
  reactors "msg-1" thumb (toggle_twice "msg-1" thumb "alice" alice_then_bob)
    ≠ reactors "msg-1" thumb alice_then_bob.
Proof.
  assert (reactors "msg-1" thumb (toggle_twice "msg-1" thumb "alice" alice_then_bob)
          = ["bob"; "alice"]) as E by (vm_compute; reflexivity).
  split; [by vm_compute|]. split; [exact E|]. rewrite E. by vm_compute.
Qed.

(** C3, amended: two toggles of the same (messageId, emoji, userId) leave the
    reactor list of that emoji with every occurrence of userId taken out and,
    when userId was a reactor, put back once at the end.  The list is
    restored exactly when userId was no reactor, or was the last one and
    listed once. *)
Theorem toggle_twice_reactors messageId emoji userId state :
  let users := reactors messageId emoji state in
  let users' := reactors messageId emoji (toggle_twice messageId emoji userId state) in
  users' = (removed userId users ++ if includes userId users then [userId] else [])%list ∧
  (users' = users ↔
   userId ∉ users ∨ ∃ others, users = (others ++ [userId])%list ∧ userId ∉ others).
Proof.
  intros users users'.
  assert (users' = (removed userId users ++ if includes userId users then [userId] else [])%list)
    as E.
  { subst users'. unfold toggle_twice. rewrite reactors_update. simpl.
    rewrite reactors_update. simpl. fold users.
    destruct (includes userId users) eqn:Hin.
    - pose proof (not_in_removed userId users) as Hout.
      apply includes_false in Hout. by rewrite Hout.
    - apply includes_false in Hin as Hnot.
      assert (includes userId (users ++ [userId]) = true) as ->.
      { apply includes_true. set_solver. }
      unfold removed. rewrite filter_app. fold (removed userId users).
      rewrite (removed_absent _ _ Hnot). rewrite filter_cons_False by (intros H; by apply H).
      by rewrite filter_nil. }
  split; [exact E|]. rewrite E. split.
  - destruct (includes userId users) eqn:Hin.
    + intros Heq. right. exists (removed userId users). split; [done|].
      apply not_in_removed.
    + intros _. left. by apply includes_false.
  - intros [Hnot|(others & Hus & Hnot)].
    + apply includes_false in Hnot as Hin. rewrite Hin, app_nil_r.
      by apply removed_absent.
    + assert (includes userId users = true) as ->.
      { apply includes_true. rewrite Hus. set_solver. }
      rewrite Hus at 1. unfold removed. rewrite filter_app.
      fold (removed userId others). rewrite (removed_absent _ _ Hnot).
      rewrite filter_cons_False by (intros H; by apply H). rewrite filter_nil.
      by rewrite app_nil_r.
Qed.

Lemma toggle_twice_reactors_witness :
  reactors "msg-1" thumb (toggle_twice "msg-1" thumb "carol" alice_then_bob)
  = reactors "msg-1" thumb alice_then_bob.
Proof.
  apply (proj2 (toggle_twice_reactors "msg-1" thumb "carol" alice_then_bob)).
  left. vm_compute. intros H. by repeat (apply elem_of_cons in H as [H|H]; [done|]);
    apply elem_of_nil in H.
Defined.

(** ** Invariants of the store under toggles *)

Lemma toggle_no_empty emoji userId (reactions : gmap string (list string)) :
  map_Forall (λ _ (users : list string), users ≠ []) reactions →
  map_Forall (λ _ (users : list string), users ≠ []) (toggle emoji userId reactions).
Proof.
  intros H. unfold toggle.
  destruct (includes userId (default [] (reactions !! emoji))).
  - destruct (filter _ _) eqn:E.
    + by apply map_Forall_delete.
    + by apply map_Forall_insert_2.
  - apply map_Forall_insert_2; [|done]. by destruct (default [] (reactions !! emoji)).
Qed.

Lemma toggle_no_duplicate emoji userId (reactions : gmap string (list string)) :
  map_Forall (λ _ (users : list string), NoDup users) reactions →
  map_Forall (λ _ (users : list string), NoDup users) (toggle emoji userId reactions).
Proof.
  intros H. unfold toggle.
  assert (NoDup (default [] (reactions !! emoji))) as Hnd.
  { destruct (reactions !! emoji) eqn:E; simpl; [by eapply H|constructor]. }
  destruct (includes userId (default [] (reactions !! emoji))) eqn:Hin.
  - destruct (filter _ _) eqn:E.
    + by apply map_Forall_delete.
    + apply map_Forall_insert_2; [|done]. rewrite <- E. by apply NoDup_filter.
  - apply map_Forall_insert_2; [|done]. apply includes_false in Hin.
    apply NoDup_app. split; [done|]. split; [|apply NoDup_singleton].
    intros x Hx Hx'. apply list_elem_of_singleton in Hx'. by subst.
Qed.

Lemma update_no_empty messageId emoji userId state :
  no_empty_entry state →
  no_empty_entry (updateLocalReaction_state messageId emoji userId state).
Proof.
  intros H. unfold updateLocalReaction_state. apply map_Forall_insert_2; [|done].
  apply toggle_no_empty. destruct (state !! messageId) eqn:E; simpl.
  - by eapply H.
  - apply map_Forall_empty.
Qed.

Lemma update_no_duplicate messageId emoji userId state :
  no_duplicate_reactor state →
  no_duplicate_reactor (updateLocalReaction_state messageId emoji userId state).
Proof.
  intros H. unfold updateLocalReaction_state. apply map_Forall_insert_2; [|done].
  apply toggle_no_duplicate. destruct (state !! messageId) eqn:E; simpl.
  - by eapply H.
  - apply map_Forall_empty.
Qed.

Lemma toggles_no_empty ts state :
  no_empty_entry state → no_empty_entry (toggles ts state).
Proof.
  revert state. induction ts as [|t ts IH]; intros state H; [done|].
  simpl. apply IH. by apply update_no_empty.
Qed.

(** C4, as stated: from a state without empty entries, toggles leave no
    user twice in a list.  A state pushed by the relay or read from storage
    may list a user twice, and toggles of other users keep it so. *)
Lemma toggles_keep_duplicate :
  no_empty_entry alice_twice ∧
  ¬ no_duplicate_reactor (toggles [("msg-1", thumb, "bob")] alice_twice).
Proof.
  split.
  - unfold alice_twice. apply map_Forall_singleton, map_Forall_singleton. done.
  - intros H.
    assert (toggles [("msg-1", thumb, "bob")] alice_twice !! "msg-1"
            = Some {[thumb := ["alice"; "alice"; "bob"]]}) as E1 by (by vm_compute).
    specialize (H _ _ E1 thumb ["alice"; "alice"; "bob"]).
    rewrite lookup_singleton_eq in H. specialize (H eq_refl).
    apply NoDup_cons in H as [H _]. apply H. by left.
Qed.

(** C4, amended: from a state without empty entries and without a user
    listed twice, every sequence of local toggles leads to a state without
    empty entries and without a user listed twice. *)
Theorem toggles_invariant ts state :
  no_empty_entry state → no_duplicate_reactor state →
  no_empty_entry (toggles ts state) ∧ no_duplicate_reactor (toggles ts state).
Proof.
  intros Hne Hnd. split; [by apply toggles_no_empty|].
  revert state Hne Hnd. induction ts as [|t ts IH]; intros state Hne Hnd; [done|].
  simpl. apply IH; [by apply update_no_empty|by apply update_no_duplicate].
Qed.

Lemma toggles_invariant_witness :
  no_empty_entry
    (toggles [("msg-1", thumb, "carol"); ("msg-1", thumb, "alice"); ("msg-2", thumb, "bob");
              ("msg-2", thumb, "bob")] alice_then_bob) ∧
  no_duplicate_reactor
    (toggles [("msg-1", thumb, "carol"); ("msg-1", thumb, "alice"); ("msg-2", thumb, "bob");
              ("msg-2", thumb, "bob")] alice_then_bob).
Proof.
  apply toggles_invariant.
  - unfold alice_then_bob. apply map_Forall_singleton, map_Forall_singleton. done.
  - unfold alice_then_bob. apply map_Forall_singleton, map_Forall_singleton.
    apply (bool_decide_unpack _). by vm_compute.
Defined.

(** ** Message identity *)

Lemma or_empty_default o : or_empty o = default EmptyString o.
Proof. by destruct o as [[|??]|]. Qed.

Lemma strip_non_alnum_all s : all_chars is_alnum (strip_non_alnum s) = true.
Proof.
  induction s as [|c r IH]; simpl; [done|].
  destruct (is_alnum c) eqn:E; simpl; [|done]. by rewrite E.
Qed.

Lemma substring_prefix_length m s : (String.length (String.substring 0 m s) ≤ m)%nat.
Proof.
  revert s. induction m as [|m IH]; intros [|c r]; simpl; try lia.
  specialize (IH r). lia.
Qed.

Lemma substring_prefix_all P m s :
  all_chars P s = true → all_chars P (String.substring 0 m s) = true.
Proof.
  revert s. induction m as [|m IH]; intros [|c r]; simpl; try done.
  intros [Hc Hr]%andb_prop. by rewrite Hc, IH.
Qed.

(** C7: the identity is a function of the text of the three sub-elements,
    absent ones counting as empty: containers that agree on them get the
    same identity, which is the literal [msg-] followed by the derivation of
    the specification (at most 32 characters, all alphanumeric). *)
Theorem generateMessageId_pure (c1 c2 : MessageContainer) :
  let field name c := default EmptyString (querySelector_textContent name (childNodes c)) in
  field "chatUserName" c1 = field "chatUserName" c2 →
  field "chatUserMessageText" c1 = field "chatUserMessageText" c2 →
  field "chatMessageTimestamp" c1 = field "chatMessageTimestamp" c2 →
  let derived :=
    identity_of_fields (querySelector_textContent "chatUserName" (childNodes c1))
      (querySelector_textContent "chatUserMessageText" (childNodes c1))
      (querySelector_textContent "chatMessageTimestamp" (childNodes c1)) in
  generateMessageId c1 = generateMessageId c2 ∧
  generateMessageId c1 = "msg-" +:+ derived ∧
  (String.length derived ≤ 32)%nat ∧
  all_chars is_alnum derived = true.
Proof.
  intros field Hu Ht Hs derived. subst field derived. simpl in *.
  unfold generateMessageId. rewrite !or_empty_default, Hu, Ht, Hs.
  split; [done|]. split; [by rewrite <- Hu, <- Ht, <- Hs|].
  unfold identity_of_fields. split.
  - apply substring_prefix_length.
  - apply substring_prefix_all, strip_non_alnum_all.
Qed.

Lemma generateMessageId_pure_witness :
  generateMessageId hello_message = generateMessageId hello_message_again ∧
  generateMessageId hello_message = "msg-Ym9iLWhlbGxvJTIwd29ybGQt".
Proof.
  destruct (generateMessageId_pure hello_message hello_message_again) as (H1 & H2 & _);
    [reflexivity|reflexivity|reflexivity|].
  split; [exact H1|]. rewrite H2. vm_compute. reflexivity.
Defined.

(** ** Reconnection *)

Lemma updateReactionDisplay_retry messageId w :
  retry (updateReactionDisplay messageId w).2 = retry w.
Proof. by apply updateReactionDisplay_frame. Qed.

Lemma updateAllReactionDisplays_retry w : retry (updateAllReactionDisplays w) = retry w.
Proof. by apply updateAllReactionDisplays_frame. Qed.

Lemma checkAndAddReactionButtons_retry w : retry (checkAndAddReactionButtons w) = retry w.
Proof.
  apply forEach_container_frame; [done|]. intros c w'. destruct (truthy _); [done|].
  unfold addReactionButton. destruct (bool_decide _); [done|].
  match goal with |- context [updateReactionDisplay ?i ?x] =>
    pose proof (updateReactionDisplay_retry i x) as H;
    destruct (updateReactionDisplay i x) end.
  simpl in *. rewrite H. by destruct (messageReactions w' !! generateMessageId c).
Qed.

Lemma ws_send_retry frame w : retry (ws_send frame w).2 = retry w.
Proof. unfold ws_send. by destruct (sendFaults w) as [|[] ?]. Qed.

Lemma sendMessage_retry message w : retry (sendMessage message w).2 = retry w.
Proof. unfold sendMessage. destruct (isConnectionReady w); [apply ws_send_retry|done]. Qed.

Lemma processQueue_from_retry queue w : retry (processQueue_from queue w) = retry w.
Proof.
  revert w. induction queue as [|m rest IH]; intros w; simpl.
  - by destruct (isConnectionReady w).
  - destruct (isConnectionReady w); [|done].
    pose proof (sendMessage_retry m (set_messageQueue rest w)) as H.
    destruct (sendMessage m (set_messageQueue rest w)) as [[] w']; simpl in H.
    + by rewrite IH.
    + done.
Qed.

Lemma queueMessage_retry message w : retry (queueMessage message w) = retry w.
Proof. unfold queueMessage, processQueue. by rewrite processQueue_from_retry. Qed.

Lemma updateMessageReactions_retry messageId w :
  retry (updateMessageReactions messageId w).2 = retry w.
Proof. by apply updateMessageReactions_frame. Qed.

Lemma addReaction_retry messageId emoji w : retry (addReaction messageId emoji w) = retry w.
Proof.
  unfold addReaction. destruct (truthy _) as [user|]; [|done].
  unfold sendReactionUpdate. destruct (isConnectionReady w).
  - pose proof (sendMessage_retry
      (reaction_update messageId emoji user (getReactionAction messageId emoji user w)) w) as H.
    destruct (sendMessage _ w) as [[] w1]; simpl in H; [|done].
    cbn zeta.
    pose proof (updateMessageReactions_retry messageId
                  (updateLocalReaction messageId emoji user w1)) as H3.
    destruct (updateMessageReactions _ _) as [[] w3]; simpl in H3;
      transitivity (retry w3); try done; by rewrite H3.
  - cbn zeta.
    pose proof (updateMessageReactions_retry messageId
                  (updateLocalReaction messageId emoji user (queueMessage
                     (reaction_update messageId emoji user
                        (getReactionAction messageId emoji user w)) w))) as H3.
    destruct (updateMessageReactions _ _) as [[] w3]; simpl in H3;
      (transitivity (retry w3); [done|]); rewrite H3;
      change (retry (queueMessage (reaction_update messageId emoji user
                       (getReactionAction messageId emoji user w)) w) = retry w);
      apply queueMessage_retry.
Qed.

Lemma updateReactionsState_retry reactionsData w w' :
  updateReactionsState reactionsData w = Some w' → retry w' = retry w.
Proof.
  unfold updateReactionsState. intros H.
  assert (∀ st, retry (updateAllReactionDisplays (set_messageReactions st w)) = retry w)
    as Hall by (intros; by rewrite updateAllReactionDisplays_retry).
  destruct reactionsData as [[| [] | | | |]|]; simpl in H; simplify_eq; try done;
    (destruct (parse _) as [parsed|]; simplify_eq; [|done]);
    (destruct (decode_state parsed); simplify_eq; [apply Hall|done]).
Qed.

Lemma handleWebSocketMessage_retry data w w' :
  handleWebSocketMessage data w = Some w' → retry w' = retry w.
Proof.
  unfold handleWebSocketMessage. intros H.
  destruct (parse data) as [v|]; simplify_eq; [|done].
  destruct v; simplify_eq; try done;
    (destruct (prop "type" _) as [[]|]; simplify_eq; try done);
    (destruct (String.eqb _ _); simplify_eq; [|done]);
    by eapply updateReactionsState_retry.
Qed.

(** What a failure of the socket (close or error event) does to the retry
    state. *)
Lemma handleReconnection_retry w :
  retry (handleReconnection w) =
  if bool_decide (reconnectAttempts w < maxReconnectAttempts)%nat
  then (S (reconnectAttempts w), S (reconnectTimers w), sockets w)
  else retry w.
Proof. unfold handleReconnection. by destruct (bool_decide _). Qed.

Lemma handle_failure_retry e w :
  is_failure e = true →
  ∃ w', handle e w = Some (Normal, w') ∧
        retry w' = if bool_decide (reconnectAttempts w < maxReconnectAttempts)%nat
                   then (S (reconnectAttempts w), S (reconnectTimers w), sockets w)
                   else retry w.
Proof.
  destruct e as [|current|current| | | |]; try done; intros _; simpl; eexists; split;
    try reflexivity; unfold onerror; rewrite handleReconnection_retry; by destruct current.
Qed.

Lemma handle_retry e w c w' :
  e ≠ Open → handle e w = Some (c, w') →
  (reconnectAttempts w ≤ maxReconnectAttempts →
   reconnectAttempts w ≤ reconnectAttempts w' ≤ maxReconnectAttempts)%nat ∧
  (reconnectTimers w' + sockets w' + reconnectAttempts w =
   reconnectTimers w + sockets w + reconnectAttempts w')%nat.
Proof.
  intros Hne H.
  assert (retry w' = retry w → (reconnectAttempts w ≤ maxReconnectAttempts →
   reconnectAttempts w ≤ reconnectAttempts w' ≤ maxReconnectAttempts)%nat ∧
  (reconnectTimers w' + sockets w' + reconnectAttempts w =
   reconnectTimers w + sockets w + reconnectAttempts w')%nat) as Hsame.
  { unfold retry. intros [= -> -> ->]. lia. }
  destruct e as [|current|current|data| |messageId emoji|]; simpl in H.
  - done.
  - destruct (handle_failure_retry (Close current) w eq_refl) as (w1 & E & Hr).
    simpl in E. rewrite E in H. simplify_eq. unfold retry in Hr.
    case_bool_decide; simplify_eq; unfold maxReconnectAttempts in *; lia.
  - destruct (handle_failure_retry (Error current) w eq_refl) as (w1 & E & Hr).
    simpl in E. rewrite E in H. simplify_eq. unfold retry in Hr.
    case_bool_decide; simplify_eq; unfold maxReconnectAttempts in *; lia.
  - destruct (handleWebSocketMessage data w) as [w1|] eqn:E; simpl in H; simplify_eq.
    apply Hsame. by eapply handleWebSocketMessage_retry.
  - destruct (reconnectTimers w) as [|pending] eqn:E; simplify_eq.
    + by apply Hsame.
    + clear Hsame. simpl. lia.
  - simplify_eq. apply Hsame, addReaction_retry.
  - simplify_eq. apply Hsame, checkAndAddReactionButtons_retry.
Qed.

(** Only a frame can lead outside the model. *)
Lemma run_events_defined events w :
  Forall (λ e, ∀ data, e ≠ Message data) events → is_Some (run_events events w).
Proof.
  intros H. revert w. induction H as [|e rest He _ IH]; intros w; simpl; [done|].
  destruct e as [|current|current|data| |messageId emoji|]; simpl;
    try apply IH; [|by destruct (He data)|].
  - destruct (onopen _) as [[] ?]; apply IH.
  - destruct (reconnectTimers w); apply IH.
Qed.

Lemma onopen_resets w : reconnectAttempts (onopen w).2 = 0%nat.
Proof.
  unfold onopen.
  match goal with |- context [sendInitialState ?t ?x] =>
    assert (retry (sendInitialState t x).2 = retry x) as H;
    [unfold sendInitialState; destruct (isConnectionReady x); [apply ws_send_retry|done]|];
    destruct (sendInitialState t x) as [[] w3] end; simpl in *.
  - unfold processQueue. pose proof (processQueue_from_retry (messageQueue w3) w3) as H'.
    unfold retry in *. simpl in H. injection H' as -> _ _. by injection H as ->.
  - unfold retry in H. simpl in H. by injection H as ->.
Qed.

(** Failures in a row: the counter saturates at 5, and so do the timers. *)
Lemma failures_in_a_row events w w' :
  Forall (λ e, is_failure e = true) events →
  (reconnectAttempts w ≤ maxReconnectAttempts)%nat →
  run_events events w = Some w' →
  reconnectAttempts w' = (maxReconnectAttempts `min` (reconnectAttempts w + length events))%nat ∧
  (reconnectTimers w' + reconnectAttempts w = reconnectTimers w + reconnectAttempts w')%nat ∧
  sockets w' = sockets w.
Proof.
  unfold maxReconnectAttempts. intros H. revert w.
  induction H as [|e rest He _ IH]; intros w Hle Hrun; simpl in Hrun.
  - simplify_eq. cbn [length]. lia.
  - destruct (handle_failure_retry e w He) as (w1 & E & Hr). rewrite E in Hrun.
    simpl in Hrun. unfold retry in Hr. unfold maxReconnectAttempts in *.
    case_bool_decide; simplify_eq.
    + destruct (IH w1) as (IH1 & IH2 & IH3); [lia|done|]. cbn [length]. lia.
    + destruct (IH w1) as (IH1 & IH2 & IH3); [lia|done|]. cbn [length]. lia.
Qed.

(** C5: along events without a successful open, the retry counter only
    grows and stays at most 5; every reconnect that is scheduled (a timer
    still pending, or fired and turned into a socket) is counted by it, so at
    most [5 - reconnectAttempts w] are scheduled, whatever the number of
    failures; a close or error event increments the counter and sets a timer
    exactly when the counter is below 5, and an open event resets it. *)
Theorem reconnection_bounded (events : list Event) (w w' : World) :
  Open ∉ events →
  (reconnectAttempts w ≤ maxReconnectAttempts)%nat →
  run_events events w = Some w' →
  (reconnectAttempts w ≤ reconnectAttempts w' ≤ maxReconnectAttempts)%nat ∧
  (reconnectTimers w' + sockets w' + reconnectAttempts w =
   reconnectTimers w + sockets w + reconnectAttempts w')%nat ∧
  (reconnectTimers w' + sockets w' + reconnectAttempts w ≤
   reconnectTimers w + sockets w + maxReconnectAttempts)%nat ∧
  (∀ e, is_failure e = true →
     ∃ w'', handle e w' = Some (Normal, w'') ∧
            retry w'' = if bool_decide (reconnectAttempts w' < maxReconnectAttempts)%nat
                        then (S (reconnectAttempts w'), S (reconnectTimers w'), sockets w')
                        else retry w') ∧
  (∃ c w'', handle Open w' = Some (c, w'') ∧ reconnectAttempts w'' = 0%nat).
Proof.
  intros Hopen Hle Hrun.
  assert ((reconnectAttempts w ≤ reconnectAttempts w' ≤ maxReconnectAttempts)%nat ∧
          (reconnectTimers w' + sockets w' + reconnectAttempts w =
           reconnectTimers w + sockets w + reconnectAttempts w')%nat) as [Hcount Hsum].
  { revert w Hle Hrun. induction events as [|e rest IH]; intros w Hle Hrun; simpl in Hrun.
    - simplify_eq. lia.
    - destruct (handle e w) as [[c w1]|] eqn:E; simpl in Hrun; [|done].
      apply not_elem_of_cons in Hopen as [Hne Hrest].
      destruct (handle_retry e w c w1) as [H1 H2]; [done|done|].
      specialize (H1 Hle). destruct (IH Hrest w1) as [H3 H4]; [lia|done|]. lia. }
  split; [done|]. split; [done|]. split; [lia|]. split.
  - intros e He. by apply handle_failure_retry.
  - simpl. pose proof (onopen_resets (set_ws (Some OPEN) w')) as H.
    destruct (onopen (set_ws (Some OPEN) w')) as [[] w'']; eauto.
Qed.

Lemma reconnection_bounded_witness :
  ∃ w', run_events eight_failures (connectWebSocket (fresh [] None (Some "alice"))) = Some w' ∧
        reconnectAttempts w' = 5%nat ∧ reconnectTimers w' = 0%nat ∧ sockets w' = 6%nat ∧
        (reconnectTimers w' + sockets w' + 0 ≤ 0 + 1 + maxReconnectAttempts)%nat.
Proof.
  eexists. split; [vm_compute; reflexivity|].
  split; [reflexivity|]. split; [reflexivity|]. split; [reflexivity|].
  eapply (reconnection_bounded eight_failures (connectWebSocket (fresh [] None (Some "alice")))).
  - unfold eight_failures. intros H.
    repeat (apply elem_of_cons in H as [H|H]; [discriminate H|]). by apply elem_of_nil in H.
  - vm_compute. lia.
  - vm_compute. reflexivity.
Defined.

(** ** The outbound queue *)

(** The drain: the messages at the head are sent in order as long as the
    socket takes them; the first one it refuses is put back at the head and
    the drain is over. *)
Lemma processQueue_from_fault (n : nat) (faults : list bool) queue w :
  isConnectionReady w = true →
  messageQueue w = queue →
  sendFaults w = (sends_ok n ++ true :: faults)%list →
  (n < length queue)%nat →
  processQueue_from queue w =
  console_line "[WWSNB] Failed to send message:"
    (set_messageQueue (drop n queue)
       (set_sent (sent w ++ (frame_of <$> take n queue))
          (set_sendFaults faults w))).
Proof.
  revert queue w. induction n as [|n IH]; intros queue w Hready Hq Hf Hlen.
  - destruct queue as [|m rest]; [simpl in Hlen; lia|]. simpl.
    rewrite Hready. unfold sendMessage, isConnectionReady in *. simpl.
    destruct (ws w) as [[]|]; try done. unfold ws_send. simpl. rewrite Hf. simpl.
    unfold console_line. destruct w; simpl in *. by rewrite app_nil_r.
  - destruct queue as [|m rest]; [simpl in Hlen; lia|]. simpl.
    rewrite Hready. unfold sendMessage.
    assert (isConnectionReady (set_messageQueue rest w) = true) as -> by done.
    unfold ws_send. simpl. rewrite Hf. simpl.
    rewrite IH; try done; [|simpl in Hlen; lia].
    unfold console_line, frame_of. destruct w; simpl in *.
    by rewrite <- app_assoc.
Qed.

(** Without a refusal the queue is emptied, oldest message first. *)
Lemma processQueue_from_all queue w :
  isConnectionReady w = true →
  messageQueue w = queue →
  sendFaults w = [] →
  processQueue_from queue w =
  set_messageQueue [] (set_sent (sent w ++ (frame_of <$> queue)) w).
Proof.
  revert w. induction queue as [|m rest IH]; intros w Hready Hq Hf.
  - simpl. rewrite Hready. destruct w; simpl in *. subst. by rewrite app_nil_r.
  - simpl. rewrite Hready. unfold sendMessage.
    assert (isConnectionReady (set_messageQueue rest w) = true) as -> by done.
    unfold ws_send. simpl. rewrite Hf.
    rewrite IH; try done. unfold frame_of. destruct w; simpl in *.
    by rewrite <- app_assoc.
Qed.

Lemma processQueue_not_ready w : isConnectionReady w = false → processQueue w = w.
Proof.
  intros H. unfold processQueue. destruct (messageQueue w); simpl; by rewrite H.
Qed.

Lemma queue_all_not_ready messages w :
  isConnectionReady w = false →
  queue_all messages w = set_messageQueue (messageQueue w ++ messages) w.
Proof.
  revert w. induction messages as [|m rest IH]; intros w H; simpl.
  - destruct w; simpl. by rewrite app_nil_r.
  - unfold queueMessage. rewrite processQueue_not_ready by done.
    rewrite IH by done. simpl. by rewrite <- app_assoc.
Qed.

(** C8: enqueuing appends to the tail and drains at once; the drain sends
    from the head, in order, and at the first send that fails puts the
    message back at the head and stops; messages queued while the socket is
    not open are sent, after the initial state, oldest first when the socket
    opens and no send fails. *)
Theorem queue_is_fifo :
  (∀ message w,
     queueMessage message w =
     processQueue (set_messageQueue (messageQueue w ++ [message]) w)) ∧
  (∀ (n : nat) faults w,
     isConnectionReady w = true →
     sendFaults w = (sends_ok n ++ true :: faults)%list →
     (n < length (messageQueue w))%nat →
     processQueue w =
     console_line "[WWSNB] Failed to send message:"
       (set_messageQueue (drop n (messageQueue w))
          (set_sent (sent w ++ (frame_of <$> take n (messageQueue w)))
             (set_sendFaults faults w)))) ∧
  (∀ messages w,
     isConnectionReady w = false →
     sendFaults w = [] →
     let w1 := queue_all messages w in
     messageQueue w1 = (messageQueue w ++ messages)%list ∧
     sent w1 = sent w ∧
     ∃ w2, handle Open w1 = Some (Normal, w2) ∧
           messageQueue w2 = [] ∧
           sent w2 = (sent w ++ initial_frame w :: (frame_of <$> (messageQueue w ++ messages)))%list).
Proof.
  split; [done|]. split.
  - intros n faults w Hready Hf Hlen. by apply processQueue_from_fault.
  - intros messages w Hready Hf w1. subst w1. rewrite queue_all_not_ready by done.
    split; [done|]. split; [done|]. simpl. unfold onopen, sendInitialState.
    match goal with |- context [isConnectionReady ?x] =>
      assert (isConnectionReady x = true) as -> by done end.
    unfold ws_send. simpl. rewrite Hf. unfold processQueue.
    rewrite processQueue_from_all; try done.
    eexists. split; [reflexivity|]. split; [done|]. simpl.
    by rewrite <- app_assoc.
Qed.

Lemma queue_is_fifo_witness :
  let w := connectWebSocket (fresh [] (Some "s1") (Some "alice")) in
  let w1 := queue_all [thumb_by "alice" add; thumb_by "bob" remove] w in
  ∃ w2, handle Open w1 = Some (Normal, w2) ∧
        messageQueue w2 = [] ∧
        sent w2 = [initial_frame w; frame_of (thumb_by "alice" add);
                   frame_of (thumb_by "bob" remove)].
Proof.
  intros w w1.
  destruct (proj2 (proj2 queue_is_fifo) [thumb_by "alice" add; thumb_by "bob" remove] w)
    as (_ & _ & w2 & H1 & H2 & H3); [reflexivity|reflexivity|].
  exists w2. split; [exact H1|]. split; [exact H2|]. exact H3.
Defined.

(** ** The display does not touch the store *)

Lemma updateReactionDisplay_store messageId w :
  messageReactions (updateReactionDisplay messageId w).2 = messageReactions w.
Proof. by apply updateReactionDisplay_frame. Qed.

Lemma updateAllReactionDisplays_store w :
  messageReactions (updateAllReactionDisplays w) = messageReactions w.
Proof. by apply updateAllReactionDisplays_frame. Qed.

(** ** Storage round trip *)

Lemma Map_of_entries_to_list {V : Type} (m : gmap string V) :
  Map_of_entries (map_to_list m) = m.
Proof.
  unfold Map_of_entries.
  rewrite <- (list_to_map_to_list m) at 2.
  apply list_to_map_proper.
  - rewrite reverse_Permutation. apply NoDup_fst_map_to_list.
  - apply reverse_Permutation.
Qed.

Lemma decoded_list_encoded {A B : Type} (f : A → decoded B) (enc : B → A) (l : list B) :
  (∀ x, f (enc x) = Typed x) → decoded_list f (enc <$> l) = Typed l.
Proof.
  intros Hf. induction l as [|x l IH]; [done|].
  rewrite fmap_cons. cbn [decoded_list]. by rewrite Hf, IH.
Qed.

Lemma own_properties_nodup (ms : list (string * json)) :
  NoDup ms.*1 → own_properties ms = ms.
Proof.
  induction ms as [|[k v] ms IH]; simpl; [done|].
  intros [Hk Hms]%NoDup_cons. rewrite IH by done.
  destruct (existsb _ ms) eqn:E; [|done].
  apply existsb_exists in E as ([k' v'] & Hin & Heq). simpl in Heq.
  apply String.eqb_eq in Heq as ->. exfalso. apply Hk.
  apply list_elem_of_fmap. exists (k, v'). split; [done|].
  by apply list_elem_of_In.
Qed.

Lemma load_users_strings (users : list string) :
  load_users (JArr (JStr <$> users)) = Typed users.
Proof. simpl. by apply decoded_list_encoded. Qed.

Lemma load_entries_encoded {V : Type} (f : json → decoded V) (enc : V → json)
    (m : gmap string V) :
  (∀ v, f (enc v) = Typed v) →
  load_entries f ((λ entry : string * V, (entry.1, enc entry.2)) <$> map_to_list m) = Typed m.
Proof.
  intros Hf. unfold load_entries.
  rewrite decoded_list_encoded.
  - simpl. by rewrite Map_of_entries_to_list.
  - intros [k v]. simpl. by rewrite Hf.
Qed.

Lemma fst_encoded_entries {V : Type} (enc : V → json) (m : gmap string V) :
  NoDup ((λ entry : string * V, (entry.1, enc entry.2)) <$> map_to_list m).*1.
Proof.
  rewrite <- list_fmap_compose.
  replace (fst ∘ (λ entry : string * V, (entry.1, enc entry.2))) with (@fst string V) by done.
  apply NoDup_fst_map_to_list.
Qed.

Lemma load_reactions_object reactions :
  load_reactions (reactions_object reactions) = Typed reactions.
Proof.
  unfold reactions_object, load_reactions.
  rewrite own_properties_nodup
    by apply (fst_encoded_entries (λ users : list string, JArr (JStr <$> users))).
  apply (load_entries_encoded load_users (λ users, JArr (JStr <$> users))).
  apply load_users_strings.
Qed.

Lemma load_state_object state : load_state (state_object state) = Typed state.
Proof.
  unfold state_object, load_state.
  rewrite own_properties_nodup by apply (fst_encoded_entries reactions_object).
  apply (load_entries_encoded load_reactions reactions_object).
  apply load_reactions_object.
Qed.

Lemma forallb_fmap_true {A B : Type} (P : B → bool) (f : A → B) (l : list A) :
  (∀ x, P (f x) = true) → forallb P (f <$> l) = true.
Proof.
  intros H. induction l as [|x l IH]; [done|].
  rewrite fmap_cons. cbn [forallb]. by rewrite H, IH.
Qed.

Lemma no_num_reactions_object reactions : no_num (reactions_object reactions) = true.
Proof.
  unfold reactions_object. cbn [no_num]. apply forallb_fmap_true.
  intros [emoji users]. cbn [no_num snd]. by apply forallb_fmap_true.
Qed.

Lemma no_num_state_object state : no_num (state_object state) = true.
Proof.
  unfold state_object. cbn [no_num]. apply forallb_fmap_true.
  intros [messageId reactions]. apply no_num_reactions_object.
Qed.

Lemma truthy_stringify_object ms : truthy (Some (stringify (JObj ms))) = Some (stringify (JObj ms)).
Proof. unfold stringify. by destruct ms as [|[??]?]. Qed.

(** What [loadReactionsFromStorage] finds under the key that
    [saveToLocalStorage] wrote. *)
Lemma load_saved sessionToken saved_from w2 :
  localStorage w2 !! storageKey sessionToken =
    Some (stringify (state_object (messageReactions saved_from))) →
  loadReactionsFromStorage sessionToken w2 =
    Some (updateAllReactionDisplays (set_messageReactions (messageReactions saved_from) w2)).
Proof.
  intros H. unfold loadReactionsFromStorage. rewrite H.
  pose proof (truthy_stringify_object
    ((λ entry : string * gmap string (list string), (entry.1, reactions_object entry.2))
       <$> map_to_list (messageReactions saved_from))) as Ht.
  fold (state_object (messageReactions saved_from)) in Ht. rewrite Ht.
  rewrite parse_stringify by apply no_num_state_object.
  by rewrite load_state_object.
Qed.

(** C6: what [saveToLocalStorage] writes for a session token,
    [loadReactionsFromStorage] reads back for that token as the same
    reaction state, in whatever state the manager is when it loads. *)
Theorem snapshot_round_trip (sessionToken : string) (w w2 : World) :
  localStorage w2 !! storageKey sessionToken =
    localStorage (saveToLocalStorage sessionToken w) !! storageKey sessionToken →
  ∃ w', loadReactionsFromStorage sessionToken w2 = Some w' ∧
        messageReactions w' = messageReactions w.
Proof.
  intros H. unfold saveToLocalStorage in H. simpl in H. rewrite lookup_insert_eq in H.
  rewrite (load_saved _ w) by done. eexists. split; [done|].
  by rewrite updateAllReactionDisplays_store.
Qed.

Lemma snapshot_round_trip_witness :
  let w := set_messageReactions two_messages (fresh [] (Some "s1") (Some "alice")) in
  let reloaded :=
    set_localStorage (localStorage (saveToLocalStorage "s1" w))
      (fresh [hello_message] (Some "s1") (Some "alice")) in
  ∃ w', loadReactionsFromStorage "s1" reloaded = Some w' ∧
        messageReactions w' = two_messages.
Proof.
  intros w reloaded. apply (snapshot_round_trip "s1" w reloaded). reflexivity.
Defined.

(** ** Malformed JSON *)

(** C9, as stated: a frame that does not parse resets the state to empty.
    The handler only logs; the state stays what it was. *)
Lemma malformed_frame_keeps_state :
  parse "{oops" = None ∧
  ∃ w', handle (Message "{oops") known_state = Some (Normal, w') ∧
        messageReactions w' = alice_then_bob ∧
        messageReactions w' ≠ ∅ ∧
        console w' = ["[WWSNB] Error handling WebSocket message:"].
Proof.
  split; [vm_compute; reflexivity|]. eexists. split; [vm_compute; reflexivity|].
  split; [reflexivity|]. split; [|reflexivity].
  intros H. apply (f_equal (λ m, m !! "msg-1" ≫= (.!! thumb))) in H.
  vm_compute in H. discriminate H.
Qed.

(** C9, amended: malformed JSON never escapes its handler.  A frame that does
    not parse, or whose nested reactions string does not parse, is logged and
    leaves the state (and the page and the storage) as they were; a stored
    snapshot that does not parse is logged and resets the state to empty. *)
Theorem malformed_json_is_caught :
  (∀ w data,
     parse data = None →
     handle (Message data) w =
       Some (Normal, console_line "[WWSNB] Error handling WebSocket message:" w)) ∧
  (∀ w data frame nested,
     parse data = Some (JObj frame) →
     member "type" frame = Some (JStr "update_reactions") →
     member "reactions" frame = Some (JStr nested) →
     parse nested = None →
     handle (Message data) w =
       Some (Normal, console_line "[WWSNB] Error updating reactions state:" w)) ∧
  (∀ w sessionToken saved,
     localStorage w !! storageKey sessionToken = Some saved →
     saved ≠ EmptyString →
     parse saved = None →
     loadReactionsFromStorage sessionToken w =
       Some (set_messageReactions ∅ (console_line "[WWSNB] Error loading reactions:" w))).
Proof.
  split; [|split].
  - intros w data H. unfold handle, handleWebSocketMessage. by rewrite H.
  - intros w data frame nested H1 H2 H3 H4. unfold handle, handleWebSocketMessage.
    rewrite H1. cbn [prop]. rewrite H2. cbn [String.eqb Ascii.eqb Bool.eqb].
    rewrite H3. unfold updateReactionsState. cbn [ToString mbind option_bind]. by rewrite H4.
  - intros w sessionToken saved H1 H2 H3. unfold loadReactionsFromStorage.
    rewrite H1. destruct saved as [|c r]; [done|]. cbn [truthy]. by rewrite H3.
Qed.

Lemma malformed_json_is_caught_witness :
  handle (Message "{oops") known_state =
    Some (Normal, console_line "[WWSNB] Error handling WebSocket message:" known_state) ∧
  handle (Message (js "{'type':'update_reactions','reactions':'[1,'}")) known_state =
    Some (Normal, console_line "[WWSNB] Error updating reactions state:" known_state) ∧
  loadReactionsFromStorage "s1"
    (set_localStorage {[storageKey "s1" := "{oops"]} known_state) =
    Some (set_messageReactions ∅
            (console_line "[WWSNB] Error loading reactions:"
               (set_localStorage {[storageKey "s1" := "{oops"]} known_state))).
Proof.
  destruct malformed_json_is_caught as (H1 & H2 & H3).
  split; [|split].
  - apply H1. vm_compute. reflexivity.
  - apply (H2 _ _ [("type", JStr "update_reactions"); ("reactions", JStr "[1,")] "[1,");
      vm_compute; reflexivity.
  - apply (H3 _ "s1" "{oops"); [vm_compute; reflexivity|discriminate|vm_compute; reflexivity].
Defined.

(** ** Pushes from the relay *)

(** C2, as stated: the push of the claim makes the state of msg-1 the single
    entry 👍 -> [alice].  The handler reads [data.reactions] at the top of
    the frame, finds nothing to parse there, logs and leaves the state as it
    was; and the pairs would not be read as [messageId]/[reactions]
    objects either. *)
Lemma claimed_push_is_dropped :
  parse claimed_push =
    Some (JObj [("type", JStr "update_reactions");
                ("data", JObj [("reactions", JStr (js "[['msg-1',[['👍',['alice']]]]]"))])]) ∧
  (∃ w', handle (Message claimed_push) known_state = Some (Normal, w') ∧
         messageReactions w' = alice_then_bob ∧
         messageReactions w' !! "msg-1" ≠ Some {[thumb := ["alice"]]} ∧
         console w' = ["[WWSNB] Error updating reactions state:"]) ∧
  (∃ w', handle (Message claimed_push_flat) known_state = Some (Normal, w') ∧
         messageReactions w' = alice_then_bob).
Proof.
  split; [by vm_compute|]. split.
  - eexists. split; [vm_compute; reflexivity|]. split; [reflexivity|].
    split; [|reflexivity].
    intros H. apply (f_equal (λ o, o ≫= (.!! thumb))) in H.
    vm_compute in H. discriminate H.
  - eexists. split; [vm_compute; reflexivity|]. reflexivity.
Qed.

Lemma decode_reaction_typed r entry : is_reaction r entry → decode_reaction r = Typed entry.
Proof.
  destruct entry as [emoji users]. intros (members & -> & He & Hu).
  unfold decode_reaction. cbn [prop]. rewrite He, Hu. cbn [as_string as_strings fst snd].
  by rewrite decoded_list_encoded.
Qed.

Lemma decode_reactions_typed rs entries :
  Forall2 is_reaction rs entries → decoded_list decode_reaction rs = Typed entries.
Proof.
  induction 1 as [|r entry rs entries Hr _ IH]; [done|].
  cbn [decoded_list]. by rewrite (decode_reaction_typed _ _ Hr), IH.
Qed.

Lemma decode_message_typed data entry :
  is_message data entry → decode_message data = Typed (entry.1, Map_of_entries entry.2).
Proof.
  destruct entry as [messageId reactions]. intros (members & rs & -> & Hi & Hr & Hrs).
  unfold decode_message. cbn [prop]. rewrite Hi, Hr. cbn [as_string fst snd].
  by rewrite (decode_reactions_typed _ _ Hrs).
Qed.

Lemma decode_messages_typed items entries :
  Forall2 is_message items entries →
  decoded_list decode_message items =
  Typed ((λ m : string * list (string * list string), (m.1, Map_of_entries m.2)) <$> entries).
Proof.
  induction 1 as [|item entry items entries Hi _ IH]; [done|].
  cbn [decoded_list]. by rewrite (decode_message_typed _ _ Hi), IH.
Qed.

Lemma decode_messages_pair items :
  Exists is_pair items → decoded_list decode_message items = Throws.
Proof.
  induction 1 as [item items (elems & ->)|item items _ IH]; cbn [decoded_list].
  - cbn [decode_message prop as_string decoded_pair].
    by destruct (decoded_list decode_message items).
  - rewrite IH. by destruct (decode_message item).
Qed.

(** C2, amended: every frame that is the JSON of an object with the member
    [type] equal to [update_reactions] and, at its top, the member
    [reactions] holding a string (other members and any layout are allowed)
    whose text is the JSON of an array of [{messageId, reactions: [{emoji,
    users}]}] objects replaces the whole local state by the map built from
    that array, a later entry replacing an earlier one with the same key.  For
    [{messageId: "msg-1", reactions: [{emoji: "👍", users: ["alice"]}]}] the
    state becomes msg-1 -> (👍 -> [alice]).  Every such frame without a member
    [reactions] at its top (the string under [data] is not looked at), and
    every one whose array holds an array, as a list of [[key, value]] pairs
    does, is caught, logged, and leaves the world as it was but for the log
    line. *)
Theorem push_replaces_state :
  (∀ data frame text items entries w,
     parse data = Some (JObj frame) →
     member "type" frame = Some (JStr "update_reactions") →
     member "reactions" frame = Some (JStr text) →
     parse text = Some (JArr items) →
     Forall2 is_message items entries →
     ∃ w', handle (Message data) w = Some (Normal, w') ∧
           messageReactions w' = pushed_state entries) ∧
  (∀ w,
     ∃ w', handle (Message (js "{'type':'update_reactions','reactions':'[{\'messageId\':\'msg-1\',\'reactions\':[{\'emoji\':\'👍\',\'users\':[\'alice\']}]}]'}")) w
             = Some (Normal, w') ∧
           messageReactions w' = {["msg-1" := {[thumb := ["alice"]]}]}) ∧
  (∀ data frame w,
     parse data = Some (JObj frame) →
     member "type" frame = Some (JStr "update_reactions") →
     member "reactions" frame = None →
     handle (Message data) w =
       Some (Normal, console_line "[WWSNB] Error updating reactions state:" w)) ∧
  (∀ data frame text items w,
     parse data = Some (JObj frame) →
     member "type" frame = Some (JStr "update_reactions") →
     member "reactions" frame = Some (JStr text) →
     parse text = Some (JArr items) →
     Exists is_pair items →
     handle (Message data) w =
       Some (Normal, console_line "[WWSNB] Error updating reactions state:" w)).
Proof.
  assert (∀ data frame text items entries w,
     parse data = Some (JObj frame) →
     member "type" frame = Some (JStr "update_reactions") →
     member "reactions" frame = Some (JStr text) →
     parse text = Some (JArr items) →
     Forall2 is_message items entries →
     ∃ w', handle (Message data) w = Some (Normal, w') ∧
           messageReactions w' = pushed_state entries) as Hpush.
  { intros data frame text items entries w H1 H2 H3 H4 H5.
    unfold handle, handleWebSocketMessage. rewrite H1. cbn [prop]. rewrite H2.
    cbn [String.eqb Ascii.eqb Bool.eqb]. rewrite H3.
    unfold updateReactionsState. cbn [ToString mbind option_bind]. rewrite H4.
    unfold decode_state. rewrite (decode_messages_typed _ _ H5).
    cbn [decoded_map fmap option_fmap option_map]. eexists. split; [reflexivity|].
    by rewrite updateAllReactionDisplays_store. }
  split; [exact Hpush|]. split; [|split].
  - intros w.
    destruct (Hpush
      (js "{'type':'update_reactions','reactions':'[{\'messageId\':\'msg-1\',\'reactions\':[{\'emoji\':\'👍\',\'users\':[\'alice\']}]}]'}")
      [("type", JStr "update_reactions");
       ("reactions", JStr (stringify (JArr [parsed_message ("msg-1", [(thumb, ["alice"])])])))]
      (stringify (JArr [parsed_message ("msg-1", [(thumb, ["alice"])])]))
      [parsed_message ("msg-1", [(thumb, ["alice"])])]
      [("msg-1", [(thumb, ["alice"])])] w) as (w' & H1 & H2).
    + by vm_compute.
    + reflexivity.
    + reflexivity.
    + by vm_compute.
    + repeat constructor. eexists _, _. split; [reflexivity|]. split; [reflexivity|].
      split; [reflexivity|]. repeat constructor. eexists. by split.
    + exists w'. split; [exact H1|]. rewrite H2. vm_compute. reflexivity.
  - intros data frame w H1 H2 H3.
    unfold handle, handleWebSocketMessage. rewrite H1. cbn [prop]. rewrite H2.
    cbn [String.eqb Ascii.eqb Bool.eqb]. rewrite H3. reflexivity.
  - intros data frame text items w H1 H2 H3 H4 H5.
    unfold handle, handleWebSocketMessage. rewrite H1. cbn [prop]. rewrite H2.
    cbn [String.eqb Ascii.eqb Bool.eqb]. rewrite H3.
    unfold updateReactionsState. cbn [ToString mbind option_bind]. rewrite H4.
    unfold decode_state. by rewrite (decode_messages_pair _ H5).
Qed.

Lemma push_replaces_state_witness :
  ∃ w', handle (Message (js "{ 'sessionToken' : 's1', 'reactions' : '[ {\'reactions\':[{\'users\':[\'alice\',\'bob\'],\'emoji\':\'\\ud83d\\udc4d\'}], \'messageId\':\'msg-1\'} ]', 'type' : 'update_reactions' }")) known_state
        = Some (Normal, w') ∧
        messageReactions w' = pushed_state [("msg-1", [(thumb, ["alice"; "bob"])])].
Proof.
  apply (proj1 push_replaces_state _
    [("sessionToken", JStr "s1");
     ("reactions", JStr (js "[ {'reactions':[{'users':['alice','bob'],'emoji':'\ud83d\udc4d'}], 'messageId':'msg-1'} ]"));
     ("type", JStr "update_reactions")]
    (js "[ {'reactions':[{'users':['alice','bob'],'emoji':'\ud83d\udc4d'}], 'messageId':'msg-1'} ]")
    [JObj [("reactions", JArr [JObj [("users", JArr [JStr "alice"; JStr "bob"]);
                                     ("emoji", JStr thumb)]]);
           ("messageId", JStr "msg-1")]]).
  - by vm_compute.
  - reflexivity.
  - reflexivity.
  - by vm_compute.
  - repeat constructor. eexists _, _. split; [reflexivity|]. split; [reflexivity|].
    split; [reflexivity|]. repeat constructor. eexists. by split.
Defined.

(** ** Messages without reactions *)

Lemma addReactionButton_store c w :
  dataset_hasReactions c ≠ Some "true" →
  messageReactions (addReactionButton c w).2 =
  match messageReactions w !! generateMessageId c with
  | Some _ => messageReactions w
  | None => <[generateMessageId c := ∅]> (messageReactions w)
  end.
Proof.
  intros H. unfold addReactionButton. rewrite bool_decide_eq_false_2 by done.
  match goal with |- context [updateReactionDisplay ?i ?x] =>
    pose proof (updateReactionDisplay_store i x) as Hs;
    destruct (updateReactionDisplay i x) end.
  simpl in *. rewrite Hs. by destruct (messageReactions w !! generateMessageId c).
Qed.


(** ** Toggling and the transport *)

(** The socket is open and refuses the frame: nothing but the log changes. *)
Lemma addReaction_send_refused messageId emoji userId faults w :
  truthy (actualUserName w) = Some userId →
  isConnectionReady w = true →
  sendFaults w = true :: faults →
  addReaction messageId emoji w =
  console_line "[WWSNB] Failed to update reaction:" (set_sendFaults faults w).
Proof.
  intros Hu Hready Hf. unfold addReaction, sendReactionUpdate, sendMessage, ws_send.
  by rewrite Hu, Hready, Hf.
Qed.

(** The socket is not open: the message is queued, nothing is sent, and the
    toggle is applied to the store all the same. *)
Lemma addReaction_not_open messageId emoji userId w :
  truthy (actualUserName w) = Some userId →
  isConnectionReady w = false →
  let w' := addReaction messageId emoji w in
  sent w' = sent w ∧
  messageQueue w' =
    (messageQueue w ++ [reaction_update messageId emoji userId
                          (getReactionAction messageId emoji userId w)])%list ∧
  messageReactions w' = updateLocalReaction_state messageId emoji userId (messageReactions w).
Proof.
  intros Hu Hready. unfold addReaction, sendReactionUpdate. rewrite Hu, Hready.
  unfold queueMessage. rewrite processQueue_not_ready by done.
  cbn zeta. unfold saveToLocalStorage, updateMessageReactions.
  destruct (selector_plain messageId); [|done].
  destruct (list_find _ _) as [[i ?]|]; [|done].
  match goal with |- context [updateReactionDisplay ?i ?x] =>
    unfold updateReactionDisplay; destruct (truthy (actualUserName x)) end; done.
Qed.

(** C1 at a toggle made before the socket is open: no frame has been sent,
    the message waits in the queue, and yet the store, the badge and the
    stored snapshot already show the reaction. *)
Theorem toggle_before_open_is_applied :
  isConnectionReady before_open = false ∧
  messageReactions before_open !! hello_id = Some ∅ ∧
  localStorage before_open !! storageKey "default-session" = None ∧
  let w' := addReaction hello_id thumb before_open in
  sent w' = [] ∧
  messageQueue w' = [reaction_update hello_id thumb "alice" add] ∧
  messageReactions w' !! hello_id = Some {[thumb := ["alice"]]} ∧
  localStorage w' !! storageKey "default-session" =
    Some (js "{'msg-Ym9iLWhlbGxvJTIwd29ybGQt':{'👍':['alice']}}") ∧
  childNodes <$> document before_open =
    [[HostElement "chatUserName" "bob"; HostElement "chatUserMessageText" "hello world";
      ReactionButton hello_id; ReactionsWrapper []]] ∧
  childNodes <$> document w' =
    [[HostElement "chatUserName" "bob"; HostElement "chatUserMessageText" "hello world";
      ReactionButton hello_id;
      ReactionsWrapper [{| badge_messageId := hello_id; badge_emoji := thumb;
                           badge_count := "1"; badge_highlighted := true;
                           badge_title := "alice" |}]]].
Proof. vm_compute. repeat split. Qed.

(** * Further properties of the manager *)

(** ** The toggle, seen from the wire and from its neighbours *)

(** X1: the action written into the [reaction_update] message is what the
    local toggle then does: [add] exactly when the user is a reactor
    afterwards, [remove] exactly when the user is not; and the toggle always
    flips the membership of the user. *)
Theorem announced_action_is_applied messageId emoji userId (w : World) :
  let before := reactors messageId emoji (messageReactions w) in
  let after := reactors messageId emoji (messageReactions
                 (updateLocalReaction messageId emoji userId w)) in
  (getReactionAction messageId emoji userId w = add ↔ userId ∈ after) ∧
  (getReactionAction messageId emoji userId w = remove ↔ userId ∉ after) ∧
  (userId ∈ after ↔ userId ∉ before).
Proof.
  intros before after.
  assert (after = if includes userId before then removed userId before
                  else (before ++ [userId])%list) as E.
  { subst after before. unfold updateLocalReaction. simpl. by rewrite reactors_update. }
  assert (getReactionAction messageId emoji userId w
          = if includes userId before then remove else add) as Ea by done.
  rewrite Ea, E. destruct (includes userId before) eqn:Hin.
  - apply includes_true in Hin. pose proof (not_in_removed userId before).
    split; [split; [done|tauto]|]. split; [tauto|tauto].
  - apply includes_false in Hin.
    assert (userId ∈ (before ++ [userId])%list) by set_solver.
    split; [tauto|]. split; [split; [done|tauto]|tauto].
Qed.

Lemma removed_removed userId users : removed userId (removed userId users) = removed userId users.
Proof.
  apply removed_absent, not_in_removed.
Qed.

(** X2: a toggle touches one reactor list only.  The lists of every other
    (messageId, emoji) pair are what they were, every other message keeps its
    whole mapping, and in the toggled list the other users keep their
    places. *)
Theorem toggle_is_local messageId emoji userId messageId' emoji' (state : MessageReactions) :
  (messageId', emoji') ≠ (messageId, emoji) →
  let state' := updateLocalReaction_state messageId emoji userId state in
  reactors messageId' emoji' state' = reactors messageId' emoji' state ∧
  (messageId' ≠ messageId → state' !! messageId' = state !! messageId') ∧
  removed userId (reactors messageId emoji state') = removed userId (reactors messageId emoji state).
Proof.
  intros Hne state'. split; [|split].
  - subst state'. unfold reactors, updateLocalReaction_state.
    destruct (decide (messageId' = messageId)) as [->|Hm].
    + rewrite lookup_insert_eq. simpl. rewrite toggle_lookup_ne by congruence.
      by destruct (state !! messageId).
    + by rewrite lookup_insert_ne.
  - intros Hm. subst state'. unfold updateLocalReaction_state. by rewrite lookup_insert_ne.
  - subst state'. rewrite reactors_update. simpl.
    destruct (includes userId (reactors messageId emoji state)).
    + apply removed_removed.
    + unfold removed. rewrite filter_app.
      rewrite filter_cons_False by (intros H; by apply H). by rewrite filter_nil, app_nil_r.
Qed.

Lemma toggle_is_local_witness :
  reactors "msg-1" "❤" (updateLocalReaction_state "msg-1" thumb "alice" alice_then_bob)
  = reactors "msg-1" "❤" alice_then_bob.
Proof.
  apply (toggle_is_local "msg-1" thumb "alice" "msg-1" "❤" alice_then_bob).
  intros H. discriminate H.
Defined.

(** ** The drain keeps every message *)

Lemma processQueue_from_keeps queue w :
  messageQueue w = queue →
  (sent (processQueue_from queue w) ++ (frame_of <$> messageQueue (processQueue_from queue w))
   = sent w ++ (frame_of <$> queue))%list ∧
  messageQueue (processQueue_from queue w) `suffix_of` queue.
Proof.
  revert w. induction queue as [|m rest IH]; intros w Hq.
  - simpl. destruct (isConnectionReady w); rewrite Hq; done.
  - simpl. destruct (isConnectionReady w) eqn:Hready; [|by rewrite Hq].
    unfold sendMessage.
    assert (isConnectionReady (set_messageQueue rest w) = true) as -> by done.
    unfold ws_send. simpl. destruct (sendFaults w) as [|[] faults] eqn:Hf; simpl.
    + match goal with |- context [processQueue_from rest ?x] =>
        destruct (IH x) as [H1 H2]; [done|] end.
      split.
      * rewrite H1. simpl. by rewrite <- app_assoc.
      * by apply suffix_cons_r.
    + done.
    + match goal with |- context [processQueue_from rest ?x] =>
        destruct (IH x) as [H1 H2]; [done|] end.
      split.
      * rewrite H1. simpl. by rewrite <- app_assoc.
      * by apply suffix_cons_r.
Qed.

(** X3: whatever the socket does (not open, or refusing any of the sends),
    [processQueue] loses no message and sends none twice or out of turn: the
    frames sent so far followed by the frames still queued are the same
    sequence before and after, and what stays queued is a tail of the
    queue. *)
Theorem processQueue_keeps_messages (w : World) :
  (sent (processQueue w) ++ (frame_of <$> messageQueue (processQueue w))
   = sent w ++ (frame_of <$> messageQueue w))%list ∧
  messageQueue (processQueue w) `suffix_of` messageQueue w.
Proof. by apply processQueue_from_keeps. Qed.

(** ** Frames *)

Lemma no_num_message_json m : no_num (message_json m) = true.
Proof. by destruct m. Qed.

Lemma action_name_inj a b : action_name a = action_name b → a = b.
Proof. by destruct a, b. Qed.

(** X4: every frame [sendMessage] writes is well-formed JSON, whatever the
    identifiers, emoji and user names contain, and reads back as the
    envelope that was sent; two different messages never give the same
    frame. *)
Theorem frames_read_back :
  (∀ message, parse (frame_of message) = Some (message_json message)) ∧
  (∀ m1 m2, frame_of m1 = frame_of m2 → m1 = m2).
Proof.
  assert (∀ message, parse (frame_of message) = Some (message_json message)) as Hp.
  { intros m. apply parse_stringify, no_num_message_json. }
  split; [exact Hp|]. intros m1 m2 H.
  pose proof (Hp m1) as H1. rewrite H, Hp in H1.
  destruct m1, m2; simpl in H1; simplify_eq; try done.
  f_equal. by apply action_name_inj.
Qed.

Lemma frames_read_back_witness :
  parse (frame_of (reaction_update (js "m'1") "\" "a
b" add)) =
  Some (message_json (reaction_update (js "m'1") "\" "a
b" add)).
Proof. apply (proj1 frames_read_back). Defined.

(** ** What scans and pushes leave alone

    A scan and a push write to the store, the page and the console only. *)

Section store_frame.
Context {A : Type} (view : World → A).
Hypothesis view_console : ∀ v w, view (set_console v w) = view w.
Hypothesis view_document : ∀ v w, view (set_document v w) = view w.
Hypothesis view_store : ∀ v w, view (set_messageReactions v w) = view w.

Lemma addReactionButton_quiet c w : view (addReactionButton c w).2 = view w.
Proof.
  unfold addReactionButton. destruct (bool_decide _); [done|].
  match goal with |- context [updateReactionDisplay ?i ?x] =>
    pose proof (updateReactionDisplay_frame view view_console i x) as H;
    destruct (updateReactionDisplay i x) end.
  simpl in *. rewrite H. destruct (messageReactions w !! generateMessageId c); [done|].
  apply view_store.
Qed.

Lemma checkAndAddReactionButtons_quiet w : view (checkAndAddReactionButtons w) = view w.
Proof.
  apply forEach_container_frame; [done|]. intros c w'.
  destruct (truthy _); [done|apply addReactionButton_quiet].
Qed.

Lemma updateReactionsState_quiet reactionsData w w' :
  updateReactionsState reactionsData w = Some w' → view w' = view w.
Proof.
  unfold updateReactionsState, console_line. intros H.
  assert (∀ st, view (updateAllReactionDisplays (set_messageReactions st w)) = view w) as Hall.
  { intros st. by rewrite updateAllReactionDisplays_frame, view_store. }
  destruct reactionsData as [[| [] | | | |]|]; simpl in H; simplify_eq;
    try apply view_console;
    (destruct (parse _) as [parsed|]; simplify_eq; [|apply view_console]);
    (destruct (decode_state parsed); simplify_eq; [apply Hall|apply view_console]).
Qed.

Lemma handleWebSocketMessage_quiet data w w' :
  handleWebSocketMessage data w = Some w' → view w' = view w.
Proof.
  unfold handleWebSocketMessage, console_line. intros H.
  destruct (parse data) as [v|]; simplify_eq; [|apply view_console].
  destruct v; simplify_eq; try done; try apply view_console;
    (destruct (prop "type" _) as [[]|]; simplify_eq; try done);
    (destruct (String.eqb _ _); simplify_eq; [|done]);
    by eapply updateReactionsState_quiet.
Qed.

Lemma loadReactionsFromStorage_quiet sessionToken w w' :
  loadReactionsFromStorage sessionToken w = Some w' → view w' = view w.
Proof.
  unfold loadReactionsFromStorage, console_line. intros H.
  destruct (truthy _) as [saved|]; simplify_eq.
  - destruct (parse saved) as [v|]; simplify_eq; [|by rewrite view_store, view_console].
    destruct (load_state v); simplify_eq.
    + by rewrite updateAllReactionDisplays_frame, view_store.
    + by rewrite view_store, view_console.
  - by apply updateAllReactionDisplays_frame.
Qed.
End store_frame.

Lemma update_frame_read data frame w :
  parse data = Some frame →
  prop "type" frame = Some (JStr "update_reactions") →
  handleWebSocketMessage data w = updateReactionsState (prop "reactions" frame) w.
Proof.
  intros H1 H2. unfold handleWebSocketMessage. rewrite H1.
  destruct frame; try discriminate H2. by rewrite H2.
Qed.

Lemma declared_frame_handled data w :
  declared_frame data → is_Some (handleWebSocketMessage data w).
Proof.
  intros [H|frame H1 H2|frame H1 H2 H3|frame text H1 H2 H3 H4
          |frame text items entries H1 H2 H3 H4 H5|frame text items H1 H2 H3 H4 H5].
  - unfold handleWebSocketMessage. by rewrite H.
  - unfold handleWebSocketMessage. rewrite H1.
    destruct frame as [| | | | |members]; try done.
    destruct (prop "type" (JObj members)) as [[| | |type| |]|]; try done.
    destruct (String.eqb type "update_reactions") eqn:E; [|done].
    apply String.eqb_eq in E. by subst type.
  - rewrite (update_frame_read _ _ _ H1 H2), H3. done.
  - rewrite (update_frame_read _ _ _ H1 H2), H3. unfold updateReactionsState.
    cbn [ToString mbind option_bind]. by rewrite H4.
  - rewrite (update_frame_read _ _ _ H1 H2), H3. unfold updateReactionsState.
    cbn [ToString mbind option_bind]. rewrite H4. unfold decode_state.
    by rewrite (decode_messages_typed _ _ H5).
  - rewrite (update_frame_read _ _ _ H1 H2), H3. unfold updateReactionsState.
    cbn [ToString mbind option_bind]. rewrite H4. unfold decode_state.
    by rewrite (decode_messages_pair _ H5).
Qed.

(** X5: a frame from the relay that is not JSON, is not an
    [update_reactions] frame, or is one with values of the declared types (or
    without the member [reactions], or with a text that is not JSON, or with
    an array where an object is due) is handled to the end, and the manager
    sends nothing, queues nothing, stores nothing and leaves the socket as it
    is: the state a push installs is not written to storage. *)
Theorem push_is_not_persisted data (w : World) :
  declared_frame data →
  ∃ w', handle (Message data) w = Some (Normal, w') ∧
        localStorage w' = localStorage w ∧ sent w' = sent w ∧
        messageQueue w' = messageQueue w ∧ ws w' = ws w.
Proof.
  intros H. destruct (declared_frame_handled data w H) as [w' E].
  exists w'. simpl. rewrite E. split; [done|].
  apply (handleWebSocketMessage_quiet outside) in E; try done.
  unfold outside in E. by simplify_eq.
Qed.

Lemma push_is_not_persisted_witness :
  ∃ w', handle (Message (js "{'type':'update_reactions','reactions':'[{\'messageId\':\'msg-9\',\'reactions\':[{\'emoji\':\'👍\',\'users\':[\'carol\']}]}]'}")) known_state
          = Some (Normal, w') ∧
        localStorage w' = localStorage known_state ∧
        sent w' = sent known_state ∧ messageQueue w' = messageQueue known_state ∧
        ws w' = ws known_state.
Proof.
  apply push_is_not_persisted.
  apply (reactions_typed _
           (JObj [("type", JStr "update_reactions");
                  ("reactions", JStr (stringify (JArr [parsed_message ("msg-9", [(thumb, ["carol"])])])))])
           (stringify (JArr [parsed_message ("msg-9", [(thumb, ["carol"])])]))
           [parsed_message ("msg-9", [(thumb, ["carol"])])]
           [("msg-9", [(thumb, ["carol"])])]).
  - by vm_compute.
  - reflexivity.
  - reflexivity.
  - by vm_compute.
  - repeat constructor. eexists _, _. split; [reflexivity|]. split; [reflexivity|].
    split; [reflexivity|]. repeat constructor. eexists. by split.
Defined.

(** ** Scanning the page *)

Lemma addReactionButton_keeps c w :
  let st := messageReactions w in
  let st' := messageReactions (addReactionButton c w).2 in
  (∀ id r, st !! id = Some r → st' !! id = Some r) ∧
  (∀ id r, st' !! id = Some r → st !! id = Some r ∨ r = ∅).
Proof.
  intros st st'. subst st st'.
  destruct (decide (dataset_hasReactions c = Some "true")) as [Ht|Ht].
  - unfold addReactionButton. rewrite bool_decide_eq_true_2 by done. simpl. eauto.
  - rewrite addReactionButton_store by done.
    destruct (messageReactions w !! generateMessageId c) eqn:E; [eauto|].
    split.
    + intros id r H. rewrite lookup_insert_ne; [done|]. intros <-. congruence.
    + intros id r. rewrite lookup_insert. case_decide; [|eauto].
      intros [= <-]. by right.
Qed.

Lemma scan_from_keeps (f : MessageContainer → World → MessageContainer * World) cs w :
  (∀ c w, (f c w).2 = w ∨ (f c w).2 = (addReactionButton c w).2) →
  let st := messageReactions w in
  let st' := messageReactions (forEach_from f cs w).2 in
  (∀ id r, st !! id = Some r → st' !! id = Some r) ∧
  (∀ id r, st' !! id = Some r → st !! id = Some r ∨ r = ∅).
Proof.
  intros Hf. revert w. induction cs as [|c rest IH]; intros w; simpl; [eauto|].
  destruct (f c w) as [c' w1] eqn:E1.
  destruct (forEach_from f rest w1) as [rest' w2] eqn:E2. simpl.
  specialize (IH w1). rewrite E2 in IH. simpl in IH. destruct IH as [IH1 IH2].
  assert ((∀ id r, messageReactions w !! id = Some r → messageReactions w1 !! id = Some r) ∧
          (∀ id r, messageReactions w1 !! id = Some r →
                   messageReactions w !! id = Some r ∨ r = ∅)) as [H1 H2].
  { destruct (Hf c w) as [H|H]; rewrite E1 in H; simpl in H; subst w1; [eauto|].
    apply addReactionButton_keeps. }
  split; [eauto|]. intros id r H. destruct (IH2 _ _ H) as [H'|H']; eauto.
Qed.

(** X6: a scan never changes the reactions of a message the state knows; all
    it may do to the store is add messages with an empty mapping.  It sends
    nothing and stores nothing. *)
Theorem scan_keeps_reactions (w : World) :
  let w' := checkAndAddReactionButtons w in
  (∀ id r, messageReactions w !! id = Some r → messageReactions w' !! id = Some r) ∧
  (∀ id r, messageReactions w' !! id = Some r →
           messageReactions w !! id = Some r ∨ r = ∅) ∧
  localStorage w' = localStorage w ∧ sent w' = sent w ∧ messageQueue w' = messageQueue w.
Proof.
  intros w'.
  pose proof (checkAndAddReactionButtons_quiet
                (λ w, (localStorage w, sent w, messageQueue w)) (λ _ _, eq_refl)
                (λ _ _, eq_refl) (λ _ _, eq_refl) w) as Hq.
  simpl in Hq. fold w' in Hq. injection Hq as Hq1 Hq2 Hq3.
  assert ((∀ id r, messageReactions w !! id = Some r → messageReactions w' !! id = Some r) ∧
          (∀ id r, messageReactions w' !! id = Some r →
                   messageReactions w !! id = Some r ∨ r = ∅)) as [Hk1 Hk2].
  { subst w'. unfold checkAndAddReactionButtons, forEach_container.
    match goal with |- context [forEach_from ?f ?cs ?x] =>
      pose proof (scan_from_keeps f cs x) as Hk;
      destruct (forEach_from f cs x) as [cs' w1] end.
    simpl in *. apply Hk. intros c w0. destruct (truthy _); eauto. }
  repeat split; eauto.
Qed.

Lemma scan_keeps_reactions_witness :
  let w := set_messageReactions alice_then_bob (fresh [hello_message] None (Some "alice")) in
  messageReactions (checkAndAddReactionButtons w) !! "msg-1"
  = Some {[thumb := ["alice"; "bob"]]}.
Proof.
  intros w. apply (proj1 (scan_keeps_reactions w)). reflexivity.
Defined.

Lemma scan_from_attaches cs w :
  Forall attached
    (forEach_from (λ c w, match truthy (dataset_hasReactions c) with
                          | None => addReactionButton c w
                          | Some _ => (c, w)
                          end) cs w).1.
Proof.
  revert w. induction cs as [|c rest IH]; intros w; simpl; [constructor|].
  match goal with |- context [forEach_from ?f rest] => set (f0 := f) in * end.
  destruct (truthy (dataset_hasReactions c)) eqn:Ht.
  - specialize (IH w). destruct (forEach_from f0 rest w) as [rest' w2]. simpl in *.
    constructor; [|done]. unfold attached. by rewrite Ht.
  - destruct (addReactionButton c w) as [c' w1] eqn:Ea.
    specialize (IH w1). destruct (forEach_from f0 rest w1) as [rest' w2]. simpl in *.
    constructor; [|done]. unfold addReactionButton in Ea.
    destruct (bool_decide _) eqn:Hb.
    + apply bool_decide_eq_true in Hb. rewrite Hb in Ht. done.
    + destruct (updateReactionDisplay _ _). by simplify_eq.
Qed.

Lemma scan_from_attached cs w :
  Forall attached cs →
  forEach_from (λ c w, match truthy (dataset_hasReactions c) with
                       | None => addReactionButton c w
                       | Some _ => (c, w)
                       end) cs w = (cs, w).
Proof.
  induction 1 as [|c rest Hc _ IH]; simpl; [done|].
  unfold attached in Hc. destruct (truthy (dataset_hasReactions c)); [|done].
  by rewrite IH.
Qed.

(** X7: a scan attaches the controls once: after it every message
    container carries the [hasReactions] mark, and a second scan changes
    nothing at all (no second button, no further entry, no log line). *)
Theorem scan_is_idempotent (w : World) :
  Forall attached (document (checkAndAddReactionButtons w)) ∧
  checkAndAddReactionButtons (checkAndAddReactionButtons w) = checkAndAddReactionButtons w.
Proof.
  unfold checkAndAddReactionButtons, forEach_container.
  pose proof (scan_from_attaches (document w) w) as Ha.
  destruct (forEach_from _ (document w) w) as [cs w1]. simpl in Ha.
  split; [done|]. simpl. by rewrite scan_from_attached.
Qed.

(** ** What sending leaves alone

    Sending and queueing write to the queue, the frames sent, the fault
    script and the console only. *)

Section transport_frame.
Context {A : Type} (view : World → A).
Hypothesis view_console : ∀ v w, view (set_console v w) = view w.
Hypothesis view_sent : ∀ v w, view (set_sent v w) = view w.
Hypothesis view_faults : ∀ v w, view (set_sendFaults v w) = view w.
Hypothesis view_queue : ∀ v w, view (set_messageQueue v w) = view w.

Lemma ws_send_frame frame w : view (ws_send frame w).2 = view w.
Proof.
  unfold ws_send. destruct (sendFaults w) as [|[] ?]; simpl;
    by rewrite ?view_sent, ?view_faults.
Qed.

Lemma sendMessage_frame message w : view (sendMessage message w).2 = view w.
Proof. unfold sendMessage. destruct (isConnectionReady w); [apply ws_send_frame|done]. Qed.

Lemma processQueue_from_frame queue w : view (processQueue_from queue w) = view w.
Proof.
  revert w. induction queue as [|m rest IH]; intros w; simpl.
  - by destruct (isConnectionReady w).
  - destruct (isConnectionReady w); [|done].
    pose proof (sendMessage_frame m (set_messageQueue rest w)) as H.
    destruct (sendMessage m (set_messageQueue rest w)) as [[] w']; simpl in H.
    + by rewrite IH, H, view_queue.
    + unfold console_line. by rewrite view_console, view_queue, H, view_queue.
Qed.

Lemma queueMessage_frame message w : view (queueMessage message w) = view w.
Proof. unfold queueMessage, processQueue. by rewrite processQueue_from_frame, view_queue. Qed.

Lemma sendInitialState_frame sessionToken w : view (sendInitialState sessionToken w).2 = view w.
Proof. unfold sendInitialState. destruct (isConnectionReady w); [apply ws_send_frame|done]. Qed.
End transport_frame.

(** ** A toggle on an open socket *)

(** The identifiers the manager derives are letters and digits after
    [msg-]: they leave the selector well formed. *)
Lemma generateMessageId_plain c : selector_plain (generateMessageId c) = true.
Proof.
  assert (∀ s, all_chars is_alnum s = true → selector_plain s = true) as Halnum.
  { induction s as [|a r IH]; [done|]. simpl. intros [Ha Hr]%andb_prop.
    rewrite (IH Hr), andb_true_r. revert Ha.
    destruct a as [[] [] [] [] [] [] [] []]; vm_compute; done. }
  unfold generateMessageId, message_id_of. cbn zeta.
  rewrite !append_cons, append_empty_l. cbn [selector_plain].
  rewrite Halnum by apply substring_prefix_all, strip_non_alnum_all. by vm_compute.
Qed.

Lemma updateMessageReactions_plain messageId w :
  selector_plain messageId = true → (updateMessageReactions messageId w).1 = true.
Proof.
  intros H. unfold updateMessageReactions. rewrite H.
  destruct (list_find _ _) as [[i ?]|]; [|done].
  by destruct (updateReactionDisplay messageId w).
Qed.

(** X8: with the socket open and taking the frame, a toggle on a message
    whose identifier leaves the selector of [updateMessageReactions] well
    formed sends exactly one [reaction_update] frame (nothing is queued),
    applies the toggle to the store, and leaves under the key of the session
    a snapshot from which a reload gets the new state. *)
Theorem toggle_on_open_socket messageId emoji userId (w : World) :
  truthy (actualUserName w) = Some userId →
  isConnectionReady w = true →
  head (sendFaults w) ≠ Some true →
  selector_plain messageId = true →
  let w' := addReaction messageId emoji w in
  sent w' = (sent w ++ [frame_of (reaction_update messageId emoji userId
                                    (getReactionAction messageId emoji userId w))])%list ∧
  messageQueue w' = messageQueue w ∧
  messageReactions w' = updateLocalReaction_state messageId emoji userId (messageReactions w) ∧
  ∀ reloaded, localStorage reloaded = localStorage w' →
    ∃ w3, loadReactionsFromStorage (getSessionToken w) reloaded = Some w3 ∧
          messageReactions w3 = messageReactions w'.
Proof.
  intros Hu Hready Hf Hplain w'. subst w'.
  unfold addReaction, sendReactionUpdate, sendMessage. rewrite Hu, Hready.
  set (message := reaction_update messageId emoji userId
                    (getReactionAction messageId emoji userId w)).
  assert (∃ w1, ws_send (stringify (message_json message)) w = (true, w1) ∧
                sent w1 = (sent w ++ [frame_of message])%list ∧
                messageQueue w1 = messageQueue w ∧
                messageReactions w1 = messageReactions w ∧
                sessionTokenParam w1 = sessionTokenParam w) as (w1 & -> & Hs & Hq & Hm & Ht).
  { unfold ws_send. destruct (sendFaults w) as [|[] faults]; [|done|]; by eexists. }
  cbn zeta.
  set (w2 := updateLocalReaction messageId emoji userId w1).
  pose proof (updateMessageReactions_plain messageId w2 Hplain) as Hdrawn.
  assert (sent (updateMessageReactions messageId w2).2 = sent w2 ∧
          messageQueue (updateMessageReactions messageId w2).2 = messageQueue w2 ∧
          messageReactions (updateMessageReactions messageId w2).2 = messageReactions w2 ∧
          sessionTokenParam (updateMessageReactions messageId w2).2 = sessionTokenParam w2)
    as (Hs3 & Hq3 & Hm3 & Ht3).
  { repeat split; by apply updateMessageReactions_frame. }
  destruct (updateMessageReactions messageId w2) as [drawn w3].
  simpl in Hdrawn, Hs3, Hq3, Hm3, Ht3. subst drawn.
  assert (getSessionToken w3 = getSessionToken w) as Hk.
  { unfold getSessionToken. by rewrite Ht3, <- Ht. }
  unfold saveToLocalStorage. simpl. rewrite Hs3, Hq3, Hm3. subst w2. simpl.
  rewrite Hs, Hq, Hm. repeat split; try done.
  intros reloaded Hr.
  assert (localStorage reloaded !! storageKey (getSessionToken w) =
          Some (stringify (state_object (messageReactions w3)))) as Hl.
  { rewrite Hr, Hk, lookup_insert_eq, Hm3. simpl. by rewrite Hm. }
  rewrite (load_saved _ w3) by done. eexists. split; [done|].
  rewrite updateAllReactionDisplays_store. simpl. rewrite Hm3. simpl. by rewrite Hm.
Qed.

Lemma toggle_on_open_socket_witness :
  sent (addReaction "msg-1" thumb known_state) =
  [frame_of (reaction_update "msg-1" thumb "alice" remove)] ∧
  reactors "msg-1" thumb (messageReactions (addReaction "msg-1" thumb known_state)) = ["bob"].
Proof.
  destruct (toggle_on_open_socket "msg-1" thumb "alice" known_state) as (H1 & _ & H3 & _);
    [reflexivity|reflexivity|discriminate|reflexivity|].
  split; [exact H1|]. rewrite H3. vm_compute. reflexivity.
Defined.

(** ** Sessions in storage *)

Lemma storageKey_inj t1 t2 : storageKey t1 = storageKey t2 → t1 = t2.
Proof. unfold storageKey. apply String.app_inj. Qed.

Lemma addReaction_storage messageId emoji w :
  localStorage (addReaction messageId emoji w) = localStorage w ∨
  ∃ snapshot, localStorage (addReaction messageId emoji w)
              = <[storageKey (getSessionToken w) := snapshot]> (localStorage w).
Proof.
  unfold addReaction. destruct (truthy (actualUserName w)) as [userId|]; [|by left].
  destruct (sendReactionUpdate messageId emoji userId w) as [[] w1] eqn:E.
  - cbn zeta.
    set (w2 := updateLocalReaction messageId emoji userId w1).
    assert (localStorage w1 = localStorage w ∧ sessionTokenParam w1 = sessionTokenParam w)
      as [Hl Ht].
    { unfold sendReactionUpdate in E. destruct (isConnectionReady w).
      - pose proof (sendMessage_frame (λ w, (localStorage w, sessionTokenParam w))
          (λ _ _, eq_refl) (λ _ _, eq_refl)
          (reaction_update messageId emoji userId
             (getReactionAction messageId emoji userId w)) w) as H.
        rewrite E in H. simpl in H. by simplify_eq.
      - simplify_eq.
        pose proof (queueMessage_frame (λ w, (localStorage w, sessionTokenParam w))
          (λ _ _, eq_refl) (λ _ _, eq_refl) (λ _ _, eq_refl) (λ _ _, eq_refl)
          (reaction_update messageId emoji userId
             (getReactionAction messageId emoji userId w)) w) as H.
        simpl in H. by simplify_eq. }
    pose proof (updateMessageReactions_frame (λ w, (localStorage w, sessionTokenParam w))
                  (λ _ _, eq_refl) (λ _ _, eq_refl) messageId w2) as H3.
    simpl in H3. injection H3 as H3 H4.
    destruct (updateMessageReactions messageId w2) as [[] w3]; simpl in H3, H4.
    + right. eexists. unfold saveToLocalStorage. simpl. rewrite H3. unfold getSessionToken.
      rewrite H4. subst w2. simpl. by rewrite Hl, Ht.
    + left. simpl. rewrite H3. subst w2. simpl. done.
  - left. unfold sendReactionUpdate in E. destruct (isConnectionReady w); [|done].
    pose proof (sendMessage_frame localStorage
          (λ _ _, eq_refl) (λ _ _, eq_refl)
          (reaction_update messageId emoji userId
             (getReactionAction messageId emoji userId w)) w) as H.
    rewrite E in H. done.
Qed.

(** X9: the manager writes to storage under the key of its own session
    only: whatever event it handles, and when it cleans up, the snapshot
    stored for any other session token is left as it is. *)
Theorem other_sessions_untouched (w : World) (other : string) :
  other ≠ getSessionToken w →
  (∀ e c w', handle e w = Some (c, w') →
     localStorage w' !! storageKey other = localStorage w !! storageKey other) ∧
  (∀ isRefresh,
     localStorage (cleanup isRefresh w) !! storageKey other = localStorage w !! storageKey other).
Proof.
  intros Hne.
  assert (storageKey (getSessionToken w) ≠ storageKey other) as Hk.
  { intros H. apply storageKey_inj in H. done. }
  split.
  - intros e c w' H.
    destruct e as [|current|current|data| |messageId emoji|]; simpl in H.
    + unfold onopen in H.
      match type of H with context [sendInitialState ?t ?x] =>
        pose proof (sendInitialState_frame localStorage (λ _ _, eq_refl) (λ _ _, eq_refl)
                      t x) as Hi;
        destruct (sendInitialState t x) as [[] w3] end; simpl in Hi; simplify_eq.
      * unfold processQueue.
        rewrite (processQueue_from_frame localStorage) by done. by rewrite Hi.
      * by rewrite Hi.
    + simplify_eq. unfold handleReconnection. by destruct (bool_decide _), current.
    + simplify_eq. unfold onerror, handleReconnection. by destruct (bool_decide _), current.
    + destruct (handleWebSocketMessage data w) as [w1|] eqn:E; simpl in H; simplify_eq.
      by rewrite (handleWebSocketMessage_quiet localStorage (λ _ _, eq_refl)
                    (λ _ _, eq_refl) (λ _ _, eq_refl) data w w').
    + destruct (reconnectTimers w); by simplify_eq.
    + simplify_eq. destruct (addReaction_storage messageId emoji w) as [->|[s ->]]; [done|].
      by rewrite lookup_insert_ne.
    + simplify_eq. by rewrite (checkAndAddReactionButtons_quiet localStorage (λ _ _, eq_refl)
                                 (λ _ _, eq_refl) (λ _ _, eq_refl)).
  - intros isRefresh. unfold cleanup, ws_close.
    assert (∀ x, getSessionToken (match ws w with
                                  | Some CONNECTING | Some OPEN => set_ws x w
                                  | _ => w end) = getSessionToken w) as Ht
      by (intros; by destruct (ws w) as [[]|]).
    destruct isRefresh; simpl; rewrite Ht.
    + rewrite lookup_insert_ne by done. by destruct (ws w) as [[]|].
    + rewrite lookup_delete_ne by done. by destruct (ws w) as [[]|].
Qed.

Lemma other_sessions_untouched_witness :
  let w := set_localStorage {[storageKey "s2" := "{}"]} known_state in
  localStorage (cleanup false w) !! storageKey "s2" = Some "{}" ∧
  localStorage (cleanup true w) !! storageKey "s2" = Some "{}".
Proof.
  intros w.
  destruct (other_sessions_untouched w "s2") as [_ H]; [discriminate|].
  split; [rewrite (H false)|rewrite (H true)]; reflexivity.
Defined.

(** ** Cleaning up and starting again *)

Lemma ws_close_same w :
  messageReactions (ws_close w) = messageReactions w ∧
  localStorage (ws_close w) = localStorage w ∧
  getSessionToken (ws_close w) = getSessionToken w ∧
  retry (ws_close w) = retry w ∧
  isConnectionReady (ws_close w) = false.
Proof. unfold ws_close. destruct (ws w) as [[]|] eqn:E; repeat split; try done;
  unfold isConnectionReady; simpl; by rewrite ?E. Qed.

Lemma setup_unfolded reloaded :
  ∃ w1, setup reloaded = loadReactionsFromStorage (getSessionToken reloaded) w1 ∧
        localStorage w1 = localStorage reloaded ∧
        messageReactions w1 = messageReactions (checkAndAddReactionButtons reloaded).
Proof.
  unfold setup. eexists. split; [|split].
  - f_equal. unfold getSessionToken.
    by rewrite (checkAndAddReactionButtons_quiet sessionTokenParam (λ _ _, eq_refl)
                  (λ _ _, eq_refl) (λ _ _, eq_refl)).
  - simpl. by rewrite (checkAndAddReactionButtons_quiet localStorage (λ _ _, eq_refl)
                  (λ _ _, eq_refl) (λ _ _, eq_refl)).
  - done.
Qed.

(** X10: the state survives a page refresh: after [cleanup(true)], a
    [setup] on a page with the same session token and that storage ends with
    the reaction state the manager had when it cleaned up, whatever the scan
    of the new page added before the load. *)
Theorem state_survives_refresh (w reloaded : World) :
  sessionTokenParam reloaded = sessionTokenParam w →
  localStorage reloaded = localStorage (cleanup true w) →
  ∃ w3, setup reloaded = Some w3 ∧ messageReactions w3 = messageReactions w.
Proof.
  intros Ht Hl. destruct (setup_unfolded reloaded) as (w1 & -> & Hl1 & _).
  destruct (ws_close_same w) as (Hm & _ & Hk & _).
  assert (getSessionToken reloaded = getSessionToken w) as Hk'
    by (unfold getSessionToken; by rewrite Ht).
  rewrite (load_saved _ (ws_close w)).
  - eexists. split; [done|]. rewrite updateAllReactionDisplays_store. simpl. done.
  - rewrite Hl1, Hl, Hk'. unfold cleanup, saveToLocalStorage. simpl.
    by rewrite Hk, lookup_insert_eq.
Qed.

Lemma state_survives_refresh_witness :
  ∃ w3, setup (set_localStorage (localStorage (cleanup true known_state))
                 (fresh [hello_message] (Some "s1") (Some "bob"))) = Some w3 ∧
        messageReactions w3 = alice_then_bob.
Proof.
  apply (state_survives_refresh known_state
           (set_localStorage (localStorage (cleanup true known_state))
              (fresh [hello_message] (Some "s1") (Some "bob")))); reflexivity.
Defined.

(** X11: a final [cleanup()] erases the snapshot of the session and keeps
    the state in memory; the socket is no longer open; the next [setup] with
    that storage restores nothing: its state is what the scan of the page
    gives. *)
Theorem final_cleanup_forgets (w reloaded : World) :
  sessionTokenParam reloaded = sessionTokenParam w →
  localStorage reloaded = localStorage (cleanup false w) →
  localStorage (cleanup false w) !! storageKey (getSessionToken w) = None ∧
  messageReactions (cleanup false w) = messageReactions w ∧
  isConnectionReady (cleanup false w) = false ∧
  ∃ w3, setup reloaded = Some w3 ∧
        messageReactions w3 = messageReactions (checkAndAddReactionButtons reloaded).
Proof.
  intros Ht Hl. destruct (ws_close_same w) as (Hm & Hs & Hk & _ & Hr).
  assert (localStorage (cleanup false w) !! storageKey (getSessionToken w) = None) as Hnone.
  { unfold cleanup. simpl. by rewrite Hk, lookup_delete_eq. }
  split; [done|]. split; [done|]. split; [done|].
  destruct (setup_unfolded reloaded) as (w1 & -> & Hl1 & Hm1).
  assert (getSessionToken reloaded = getSessionToken w) as Hk'
    by (unfold getSessionToken; by rewrite Ht).
  unfold loadReactionsFromStorage. rewrite Hl1, Hl, Hk', Hnone. simpl.
  eexists. split; [done|]. by rewrite updateAllReactionDisplays_store.
Qed.

Lemma final_cleanup_forgets_witness :
  localStorage (cleanup false (saveToLocalStorage "s1" known_state)) !! storageKey "s1" = None ∧
  messageReactions (cleanup false (saveToLocalStorage "s1" known_state)) = alice_then_bob.
Proof.
  destruct (final_cleanup_forgets (saveToLocalStorage "s1" known_state)
              (set_localStorage (localStorage (cleanup false (saveToLocalStorage "s1" known_state)))
                 (fresh [] (Some "s1") None))) as (H1 & H2 & _);
    [reflexivity|reflexivity|].
  split; [exact H1|exact H2].
Defined.

(** X12: [cleanup] closes the socket but leaves its handlers in place: the
    close event that follows is handled as a failure, and while the retry
    counter is below 5 it sets a reconnect timer whose firing builds a new
    socket. *)
Theorem cleanup_leaves_reconnection_armed (isRefresh : bool) (w : World) :
  (reconnectAttempts w < maxReconnectAttempts)%nat →
  ∃ w', run_events [Close true; ReconnectTimer] (cleanup isRefresh w) = Some w' ∧
        ws w' = Some CONNECTING ∧
        sockets w' = S (sockets w) ∧
        reconnectAttempts w' = S (reconnectAttempts w).
Proof.
  intros Hlt. destruct (ws_close_same w) as (_ & _ & _ & Hr & _).
  assert (retry (cleanup isRefresh w) = retry w) as Hc.
  { unfold cleanup. by destruct isRefresh. }
  unfold retry in Hc. injection Hc as Ha Hti Hso.
  simpl. unfold handleReconnection.
  assert (reconnectAttempts (set_ws (Some CLOSED) (cleanup isRefresh w))
          = reconnectAttempts w) as -> by done.
  rewrite bool_decide_eq_true_2 by done. simpl.
  eexists. split; [reflexivity|]. simpl. by rewrite Hso.
Qed.

Lemma cleanup_leaves_reconnection_armed_witness :
  ∃ w', run_events [Close true; ReconnectTimer] (cleanup false known_state) = Some w' ∧
        ws w' = Some CONNECTING ∧
        sockets w' = S (sockets known_state) ∧
        reconnectAttempts w' = S (reconnectAttempts known_state).
Proof.
  apply (cleanup_leaves_reconnection_armed false known_state). vm_compute. lia.
Defined.

(** ** What the display shows after a toggle *)

Lemma shown_render_in badges c : shown (childNodes (render_in badges c)) = Some badges.
Proof.
  unfold render_in. simpl. induction (childNodes c) as [|n rest IH]; [done|].
  destruct n; simpl; try done;
    destruct (fill_reactions_container badges rest); simpl in *; done.
Qed.

Lemma sendReactionUpdate_page messageId emoji userId w :
  document (sendReactionUpdate messageId emoji userId w).2 = document w ∧
  actualUserName (sendReactionUpdate messageId emoji userId w).2 = actualUserName w.
Proof.
  unfold sendReactionUpdate. destruct (isConnectionReady w); simpl.
  - pose proof (sendMessage_frame (λ w, (document w, actualUserName w))
      (λ _ _, eq_refl) (λ _ _, eq_refl)
      (reaction_update messageId emoji userId (getReactionAction messageId emoji userId w)) w)
      as H.
    by injection H.
  - pose proof (queueMessage_frame (λ w, (document w, actualUserName w))
      (λ _ _, eq_refl) (λ _ _, eq_refl) (λ _ _, eq_refl) (λ _ _, eq_refl)
      (reaction_update messageId emoji userId (getReactionAction messageId emoji userId w)) w)
      as H.
    by injection H.
Qed.

(** X13: when a toggle goes through (socket not open, or open and taking
    the frame), the identifier of the message leaves the selector of
    [updateMessageReactions] well formed, and the page has a container
    carrying that identifier, the first such container, and no other, is
    redrawn: its reactions container holds exactly one badge per emoji of the
    message in the state after the toggle, built by [createReactionBadge] for
    the current user. *)
Theorem toggle_is_displayed messageId emoji userId (w : World) i c :
  truthy (actualUserName w) = Some userId →
  isConnectionReady w = false ∨ head (sendFaults w) ≠ Some true →
  selector_plain messageId = true →
  list_find (λ c, dataset_messageId c = Some messageId) (document w) = Some (i, c) →
  let w' := addReaction messageId emoji w in
  let reactions := default ∅ (messageReactions w' !! messageId) in
  ∃ badges,
    document w' = <[i := render_in badges c]> (document w) ∧
    shown (childNodes (render_in badges c)) = Some badges ∧
    length badges = size reactions ∧
    ∀ b, b ∈ badges ↔
         ∃ emoji' users, reactions !! emoji' = Some users ∧
                         b = createReactionBadge messageId userId (emoji', users).
Proof.
  intros Hu Hok Hplain Hfind w' reactions. subst w' reactions.
  unfold addReaction. rewrite Hu.
  destruct (sendReactionUpdate_page messageId emoji userId w) as [Hd Hn].
  assert ((sendReactionUpdate messageId emoji userId w).1 = true) as Hsent.
  { unfold sendReactionUpdate, sendMessage.
    destruct (isConnectionReady w); [|done].
    destruct Hok as [|Hf]; [done|]. unfold ws_send.
    by destruct (sendFaults w) as [|[] ?]. }
  destruct (sendReactionUpdate messageId emoji userId w) as [ok w1].
  simpl in Hd, Hn, Hsent. subst ok. cbn zeta.
  set (w2 := updateLocalReaction messageId emoji userId w1).
  assert (document w2 = document w) as Hd2 by done.
  assert (truthy (actualUserName w2) = Some userId) as Hn2 by (simpl; by rewrite Hn).
  set (reactions := default ∅ (messageReactions w2 !! messageId)).
  exists (createReactionBadge messageId userId <$> map_to_list reactions).
  assert (updateMessageReactions messageId w2 =
          (true, set_document (alter (render_in (createReactionBadge messageId userId
                                            <$> map_to_list reactions)) i (document w)) w2))
    as ->.
  { unfold updateMessageReactions, updateReactionDisplay. rewrite Hplain, Hd2, Hfind, Hn2.
    cbn beta iota zeta. by rewrite Hd2. }
  apply list_find_Some in Hfind as Hi. destruct Hi as (Hi & _).
  unfold saveToLocalStorage. cbn [document messageReactions set_localStorage set_document].
  fold reactions. split; [|split; [|split]].
  - apply list_eq. intros j. destruct (decide (j = i)) as [->|Hne].
    + rewrite list_lookup_alter_eq, Hi. simpl.
      by rewrite list_lookup_insert_eq by by eapply lookup_lt_Some.
    + by rewrite list_lookup_alter_ne, list_lookup_insert_ne.
  - apply shown_render_in.
  - by rewrite length_fmap, length_map_to_list.
  - intros b. rewrite list_elem_of_fmap. split.
    + intros ([emoji' users] & -> & Hin%elem_of_map_to_list). by exists emoji', users.
    + intros (emoji' & users & Hl & ->). exists (emoji', users).
      split; [done|]. by apply elem_of_map_to_list.
Qed.

Lemma toggle_is_displayed_witness :
  ∃ badges,
    document (addReaction hello_id thumb before_open)
    = <[0%nat := render_in badges (default hello_message (document before_open !! 0%nat))]>
        (document before_open) ∧
    length badges = 1%nat.
Proof.
  destruct (toggle_is_displayed hello_id thumb "alice" before_open 0%nat
              (default hello_message (document before_open !! 0%nat)))
    as (badges & H1 & _ & H3 & _);
    [reflexivity|left; reflexivity|reflexivity|reflexivity|].
  exists badges. split; [exact H1|]. rewrite H3. vm_compute. reflexivity.
Defined.

(** ** Messages that share an identity *)

Lemma encodeURIComponent_app a b :
  encodeURIComponent (a +:+ b) = encodeURIComponent a +:+ encodeURIComponent b.
Proof.
  induction a as [|c r IH]; [done|]. rewrite append_cons. simpl.
  destruct (uri_unreserved c); rewrite ?append_cons; by rewrite IH.
Qed.

Lemma encodeURIComponent_ascii s : all_chars is_ascii (encodeURIComponent s) = true.
Proof.
  induction s as [|c r IH]; [done|]. simpl.
  destruct (uri_unreserved c) eqn:E; simpl; rewrite IH.
  - revert E. destruct c as [[] [] [] [] [] [] [] []]; vm_compute; done.
  - destruct c as [[] [] [] [] [] [] [] []]; vm_compute; done.
Qed.

Lemma encodeURIComponent_length s :
  (String.length s ≤ String.length (encodeURIComponent s))%nat.
Proof.
  induction s as [|c r IH]; simpl; [lia|].
  destruct (uri_unreserved c); simpl; lia.
Qed.

Lemma btoa_group a b c r :
  btoa (String a (String b (String c r))) =
  String (b64_char (N.shiftr (N_of_ascii a) 2))
    (String (b64_char (N.lor (N.shiftl (N.land (N_of_ascii a) 3) 4) (N.shiftr (N_of_ascii b) 4)))
      (String (b64_char (N.lor (N.shiftl (N.land (N_of_ascii b) 15) 2)
                           (N.shiftr (N_of_ascii c) 6)))
        (String (b64_char (N.land (N_of_ascii c) 63)) (btoa r)))).
Proof. reflexivity. Qed.

(** [btoa] works on groups of three bytes: a prefix made of whole groups is
    encoded on its own. *)
Lemma btoa_app k : ∀ g r,
  String.length g = (3 * k)%nat → btoa (g +:+ r) = btoa g +:+ btoa r.
Proof.
  induction k as [|k IH]; intros g r Hlen.
  - by destruct g.
  - destruct g as [|a [|b [|c g]]]; simpl in Hlen; try lia.
    rewrite !append_cons, !btoa_group, !append_cons. rewrite IH by lia. done.
Qed.

Lemma strip_non_alnum_app a b :
  strip_non_alnum (a +:+ b) = strip_non_alnum a +:+ strip_non_alnum b.
Proof.
  induction a as [|c r IH]; [done|]. rewrite append_cons. simpl.
  destruct (is_alnum c); rewrite ?append_cons; by rewrite IH.
Qed.

Lemma substring_app_prefix n : ∀ a b,
  (n ≤ String.length a)%nat → String.substring 0 n (a +:+ b) = String.substring 0 n a.
Proof.
  induction n as [|n IH]; intros [|c a] b Hlen; simpl in Hlen; try lia.
  - by destruct b.
  - done.
  - rewrite append_cons. simpl. by rewrite IH by lia.
Qed.

Lemma string_split n : ∀ s,
  (n ≤ String.length s)%nat → ∃ g r, s = g +:+ r ∧ String.length g = n.
Proof.
  induction n as [|n IH]; intros s Hlen.
  - by exists EmptyString, s.
  - destruct s as [|c s]; simpl in Hlen; [lia|].
    destruct (IH s) as (g & r & -> & Hg); [lia|].
    exists (String c g), r. split; [done|]. simpl. by rewrite Hg.
Qed.

Lemma all_chars_app P a b :
  all_chars P (a +:+ b) = true → all_chars P a = true.
Proof.
  induction a as [|c r IH]; [done|]. rewrite append_cons. simpl.
  intros [-> H]%andb_prop. by apply IH.
Qed.

Lemma below (P : N → bool) (bound : nat) :
  forallb P (N.of_nat <$> seq 0 bound) = true → ∀ n, (n < N.of_nat bound)%N → P n = true.
Proof.
  intros H n Hn. rewrite forallb_forall in H. apply H.
  apply in_map_iff. exists (N.to_nat n). split; [lia|]. apply in_seq. lia.
Qed.

(** Of the four characters [btoa] writes for a group of three bytes below
    0x80, the first three are letters or digits. *)
Lemma btoa_group_alnum x y z :
  (x < 128)%N → (y < 128)%N → (z < 128)%N →
  is_alnum (b64_char (N.shiftr x 2)) = true ∧
  is_alnum (b64_char (N.lor (N.shiftl (N.land x 3) 4) (N.shiftr y 4))) = true ∧
  is_alnum (b64_char (N.lor (N.shiftl (N.land y 15) 2) (N.shiftr z 6))) = true.
Proof.
  intros Hx Hy Hz.
  assert (∀ n k b, (n < 128)%N → (128 ≤ 2 ^ k * N.of_nat b)%N →
                   (N.shiftr n k < N.of_nat b)%N) as Hshift.
  { intros n k b Hn Hb. rewrite N.shiftr_div_pow2.
    apply N.Div0.div_lt_upper_bound. lia. }
  assert (∀ n k, (N.land n (N.ones k) < 2 ^ k)%N) as Hland.
  { intros n k. rewrite N.land_ones. apply N.mod_lt. by apply N.pow_nonzero. }
  split; [|split].
  - apply (below (λ a, is_alnum (b64_char a)) 32); [by vm_compute|].
    apply Hshift; [done|by vm_compute].
  - apply (below (λ b, is_alnum (b64_char (N.lor (N.shiftl (N.land x 3) 4) b))) 8).
    + apply (below (λ a, forallb (λ b, is_alnum (b64_char (N.lor (N.shiftl a 4) b)))
                           (N.of_nat <$> seq 0 8)) 4); [by vm_compute|exact (Hland x 2%N)].
    + apply Hshift; [done|by vm_compute].
  - apply (below (λ b, is_alnum (b64_char (N.lor (N.shiftl (N.land y 15) 2) b))) 2).
    + apply (below (λ a, forallb (λ b, is_alnum (b64_char (N.lor (N.shiftl a 2) b)))
                           (N.of_nat <$> seq 0 2)) 16); [by vm_compute|exact (Hland y 4%N)].
    + apply Hshift; [done|by vm_compute].
Qed.

Lemma btoa_groups_length k : ∀ g,
  String.length g = (3 * k)%nat → all_chars is_ascii g = true →
  (3 * k ≤ String.length (strip_non_alnum (btoa g)))%nat.
Proof.
  induction k as [|k IH]; intros g Hlen Hall; [lia|].
  destruct g as [|a [|b [|c g]]]; simpl in Hlen; try lia.
  simpl in Hall.
  apply andb_prop in Hall as [Ha Hall]. apply andb_prop in Hall as [Hb Hall].
  apply andb_prop in Hall as [Hc Hall].
  unfold is_ascii in Ha, Hb, Hc. apply N.ltb_lt in Ha, Hb, Hc.
  destruct (btoa_group_alnum _ _ _ Ha Hb Hc) as (H1 & H2 & H3).
  rewrite btoa_group. cbn [strip_non_alnum]. rewrite H1, H2, H3.
  specialize (IH g ltac:(lia) Hall).
  destruct (is_alnum (b64_char (N.land (N_of_ascii c) 63))); simpl; lia.
Qed.

(** The identity depends on the first 33 bytes of the encoded string only. *)
Lemma identity_of_long_prefix p :
  (33 ≤ String.length (encodeURIComponent p))%nat →
  ∃ g, ∀ s, String.substring 0 32 (strip_non_alnum (btoa (encodeURIComponent (p +:+ s))))
            = String.substring 0 32 (strip_non_alnum (btoa g)).
Proof.
  intros Hlen. destruct (string_split 33 _ Hlen) as (g & r & Hsplit & Hg).
  exists g. intros s.
  assert (all_chars is_ascii g = true) as Hall.
  { apply (all_chars_app _ g r). rewrite <- Hsplit. apply encodeURIComponent_ascii. }
  rewrite encodeURIComponent_app, Hsplit, append_assoc.
  rewrite (btoa_app 11) by done. rewrite strip_non_alnum_app.
  apply substring_app_prefix.
  pose proof (btoa_groups_length 11 g Hg Hall). lia.
Qed.

(** X14: the identity of a message is cut after 32 characters, so it reads
    the start of [user-text-timestamp] only: two messages of one user whose
    texts start alike, with [user-] and that start making 33 bytes or more,
    get the same identity, whatever follows in the text and whatever the
    timestamps. *)
Theorem long_messages_share_identity (user text rest1 rest2 ts1 ts2 : string) :
  (33 ≤ String.length (user +:+ "-" +:+ text))%nat →
  message_id_of user (text +:+ rest1) ts1 = message_id_of user (text +:+ rest2) ts2.
Proof.
  intros Hlen. unfold message_id_of. cbn zeta. f_equal.
  assert (∀ rest ts, user +:+ "-" +:+ (text +:+ rest) +:+ "-" +:+ ts
                     = (user +:+ "-" +:+ text) +:+ (rest +:+ "-" +:+ ts)) as Hassoc.
  { intros rest ts. by rewrite !append_assoc. }
  rewrite !Hassoc.
  destruct (identity_of_long_prefix (user +:+ "-" +:+ text)) as (g & Hg).
  { pose proof (encodeURIComponent_length (user +:+ "-" +:+ text)). lia. }
  by rewrite !Hg.
Qed.

Lemma long_messages_share_identity_witness :
  message_id_of "bob" ("see you all at the town hall today" +:+ " at nine") "09:00"
  = message_id_of "bob" ("see you all at the town hall today" +:+ " at ten, not nine") "10:30".
Proof.
  apply (long_messages_share_identity "bob" "see you all at the town hall today").
  vm_compute. lia.
Defined.

(** * Moderator highlighting *)

Lemma classList_add_twice token classes :
  Moderator.classList_add token (Moderator.classList_add token classes)
  = Moderator.classList_add token classes.
Proof.
  unfold Moderator.classList_add.
  destruct (bool_decide (token ∈ classes)) eqn:E; [by rewrite E|].
  rewrite bool_decide_eq_true_2; [done|].
  apply elem_of_app. right. by apply list_elem_of_singleton.
Qed.

Lemma classList_add_elem token classes : token ∈ Moderator.classList_add token classes.
Proof.
  unfold Moderator.classList_add. case_bool_decide; [done|].
  apply elem_of_app. right. by apply list_elem_of_singleton.
Qed.

Lemma holds_badge_count (node : Moderator.SpanChild) :
  Moderator.holds_badge node = negb (Nat.eqb (Moderator.count_badges node) 0).
Proof.
  revert node. fix IH 1. intros [text|className children]; [done|].
  cbn [Moderator.holds_badge Moderator.count_badges].
  destruct (bool_decide ("moderator-badge" ∈ className)); [done|].
  cbn [orb Nat.add]. revert children. fix IHl 1. intros [|node children]; [done|].
  cbn [existsb]. rewrite fmap_cons. cbn [sum_list]. rewrite IH, IHl.
  destruct (Moderator.count_badges node); [done|]. done.
Qed.

Lemma existsb_holds_badge nodes :
  existsb Moderator.holds_badge nodes
  = negb (Nat.eqb (sum_list (Moderator.count_badges <$> nodes)) 0).
Proof.
  induction nodes as [|node rest IH]; [done|].
  cbn [existsb]. rewrite fmap_cons. cbn [sum_list]. rewrite IH, holds_badge_count.
  destruct (Moderator.count_badges node); [done|]. done.
Qed.

(** X15: [addClassModerator] may be run again on an element it has tagged:
    the second run changes nothing. After it the element has the class
    [moderator-message]; below the span of its user name there are as many
    badges as before, nested ones counted, or one if there was none; an
    element without that span gets no badge. *)
Theorem addClassModerator_once (message : Moderator.Element) :
  Moderator.addClassModerator (Moderator.addClassModerator message)
  = Moderator.addClassModerator message ∧
  "moderator-message" ∈ Moderator.classList (Moderator.addClassModerator message) ∧
  Moderator.badges (Moderator.addClassModerator message)
  = match Moderator.username message with
    | Some _ => Nat.max 1 (Moderator.badges message)
    | None => 0%nat
    end.
Proof.
  destruct message as [classes avatar [nodes|]];
    unfold Moderator.addClassModerator, Moderator.badges; simpl;
    (split; [|split; [apply classList_add_elem|]]).
  - rewrite classList_add_twice. f_equal.
    destruct (existsb Moderator.holds_badge nodes) eqn:E; [by rewrite E|].
    rewrite existsb_app. simpl. by rewrite orb_true_r.
  - pose proof (existsb_holds_badge nodes) as H.
    destruct (existsb Moderator.holds_badge nodes); simpl.
    + symmetry in H. apply negb_true_iff, Nat.eqb_neq in H. lia.
    + symmetry in H. apply negb_false_iff, Nat.eqb_eq in H.
      rewrite fmap_app, sum_list_with_app, H. done.
  - by rewrite classList_add_twice.
  - done.
Qed.

(** X16: [checkForModeratorMessages] marks the message before it looks for
    the list item: whatever the first call did, tagging included, a second
    call on the same message returns at once and changes nothing; the call
    is left by a [TypeError] exactly for an unmarked message outside any
    list item, which is marked all the same and so never looked at again. *)
Theorem checkForModeratorMessages_once (message : Moderator.ChatMessage) :
  let r := Moderator.checkForModeratorMessages message in
  Moderator.checkForModeratorMessages r.2 = (true, r.2) ∧
  Moderator.moderatorChecked r.2 = Some "true" ∧
  (r.1 = false ↔
   Moderator.moderatorChecked message ≠ Some "true" ∧ Moderator.listitem message = None).
Proof.
  unfold Moderator.checkForModeratorMessages.
  destruct (bool_decide (Moderator.moderatorChecked message = Some "true")) eqn:E; simpl.
  - rewrite E. apply bool_decide_eq_true in E. split; [done|]. split; [done|].
    split; [done|]. by intros [].
  - apply bool_decide_eq_false in E.
    destruct (Moderator.listitem message); simpl;
      (split; [done|]); (split; [done|]); split; try done.
    by intros [].
Qed.

(** X17: the scan of the earlier script, which the observer runs again at
    every change of the page, only acts on containers it has not seen: after
    one run every container carries the flag, a container that carried it is
    the same, and a further run changes nothing. *)
Theorem checkModeratorMessages_idempotent (messages : list Moderator.Container) :
  Moderator.checkModeratorMessages (Moderator.checkModeratorMessages messages)
  = Moderator.checkModeratorMessages messages ∧
  Forall (λ c, Moderator.moderator_checked c = true)
         (Moderator.checkModeratorMessages messages) ∧
  Forall2 (λ c c', Moderator.moderator_checked c = true → c' = c)
          messages (Moderator.checkModeratorMessages messages).
Proof.
  unfold Moderator.checkModeratorMessages.
  assert (∀ c, Moderator.moderator_checked (Moderator.checkModeratorMessage c) = true) as Hc.
  { intros c. unfold Moderator.checkModeratorMessage.
    by destruct (Moderator.moderator_checked c) eqn:E. }
  split; [|split].
  - rewrite <- list_fmap_compose. apply list_fmap_ext. intros _ c _. simpl.
    unfold Moderator.checkModeratorMessage at 1. by rewrite Hc.
  - apply Forall_fmap, Forall_forall. intros c _. apply Hc.
  - apply Forall2_fmap_r, Forall_Forall2_diag, Forall_forall. intros c _ H.
    unfold Moderator.checkModeratorMessage. by rewrite H.
Qed.

(** * Frames sent and frames read *)

(** X18: the manager does not read the frames it writes. A
    [reaction_update] frame given to the message handler is ignored; an
    [update_reactions] frame as [sendInitialState] writes it, with the
    reactions under [data], is refused: the handler looks for [reactions] at
    the top of the frame, the error is caught and logged. Either way the
    handler ends normally and the state and the page are as before. *)
Theorem own_frames_are_not_read (message : WebSocketMessage) (w : World) :
  handle (Message (frame_of message)) w =
    Some (Normal,
          match message with
          | reaction_update _ _ _ _ => w
          | update_reactions _ _ => console_line "[WWSNB] Error updating reactions state:" w
          end) ∧
  ∀ w', handle (Message (frame_of message)) w = Some (Normal, w') →
        messageReactions w' = messageReactions w ∧ document w' = document w.
Proof.
  assert (handle (Message (frame_of message)) w =
    Some (Normal,
          match message with
          | reaction_update _ _ _ _ => w
          | update_reactions _ _ => console_line "[WWSNB] Error updating reactions state:" w
          end)) as H.
  { unfold handle, handleWebSocketMessage, frame_of.
    rewrite (parse_stringify _ (no_num_message_json message)).
    destruct message; reflexivity. }
  split; [exact H|]. intros w'. rewrite H. intros [= <-]. by destruct message.
Qed.

(** * Messages without reactions, along the events *)






